(** * Filtered link-prediction evaluation of the kg_completion example

    A shallow embedding of [ranking_and_hits_this] and of the model
    selection of [KGC.__init__] (examples/pytorch/kg_completion/main.py)
    and of [TextClassifier.__init__] / [ModelHandler]
    (examples/pytorch/text_classification/run_text_classifier.py).

    Numbers.  Scores, hit indicators and the reported means are modelled
    as exact rationals [Q]: the evaluator only compares scores, writes the
    constant [0.0] and copies one saved score back, so the order of the
    finite floating-point scores is all that the ranking depends on; the
    means are taken in exact arithmetic ([np_mean]; a not-a-number score is
    outside the model).  Where the float64 rounding of [np.mean] decides a
    statement, the hit rates are also computed on float64 numbers
    ([np_mean64]).  Entity ids are the dense
    non-negative ids of the vocabulary, modelled as [nat].

    Tensors.  A row of a prediction tensor is a [list Q]; reading or
    writing outside the row raises [IndexError], as indexing does.

    Sorting.  [torch.sort] is modelled by a descending insertion sort that
    keeps equal scores in index order; the bounds on ranks below are proved
    from the sorted indices being a permutation of the row's indices, and
    so do not depend on how equal scores are ordered. *)

From Stdlib Require Import QArith Lqa String Sorted.
From Stdlib Require PrimFloat.
From stdpp Require Import base tactics option sorting list.

Local Open Scope Q_scope.
Local Open Scope nat_scope.
Local Open Scope list_scope.

(** ** Exceptions and fallible computations *)

Inductive exn : Type :=
  | IndexError
  | NameError (msg : string)
  | Exception (msg : string)
  | RuntimeError (msg : string).

Inductive result (A : Type) : Type :=
  | Ok (a : A)
  | Raise (e : exn).
Arguments Ok {A} a.
Arguments Raise {A} e.

Definition bind {A B : Type} (m : result A) (k : A -> result B) : result B :=
  match m with
  | Ok a => k a
  | Raise e => Raise e
  end.

Notation "'let*' x := m 'in' k" := (bind m (fun x => k))
  (at level 10, x name, m at level 100, k at level 200,
   format "'[v' 'let*'  x  :=  m  'in' '/' k ']'").

Definition message (e : exn) : string :=
  match e with
  | IndexError => "index out of range"
  | NameError msg => msg
  | Exception msg => msg
  | RuntimeError msg => msg
  end.

(** [for x in xs: a = body(a, x)] where the body may raise. *)
Fixpoint foldM {A B : Type} (f : A -> B -> result A) (a : A) (xs : list B)
  : result A :=
  match xs with
  | [] => Ok a
  | x :: xs' => let* a' := f a x in foldM f a' xs'
  end.

Fixpoint mapM_result {A B : Type} (f : A -> result B) (xs : list A)
  : result (list B) :=
  match xs with
  | [] => Ok []
  | x :: xs' => let* y := f x in let* ys := mapM_result f xs' in Ok (y :: ys)
  end.

(** ** Tensor rows *)

(** [row[j].item()] *)
Definition getitem (row : list Q) (j : nat) : result Q :=
  match row !! j with
  | Some v => Ok v
  | None => Raise IndexError
  end.

(** [row[idx] = v] for an index tensor [idx]: every listed position is
    overwritten, in order; a position outside the row raises.  The
    exception is [IndexError] for a tensor on the CPU; on a CUDA device the
    same failure is reported as a [RuntimeError], and nothing stated about
    the pass depends on which of the two it is. *)
Fixpoint index_fill (row : list Q) (idx : list nat) (v : Q) : result (list Q) :=
  match idx with
  | [] => Ok row
  | j :: idx' =>
      if j <? length row then index_fill (<[j := v]> row) idx' v
      else Raise IndexError
  end.

(** ** The filter step, one direction (main.py lines 119-131)

    [target_value = pred[i, target].item()]
    [pred[i][filter] = 0.0]
    [pred[i][target] = target_value] *)
Definition filter_row (pred : list Q) (target : nat) (filter : list nat)
  : result (list Q) :=
  let* target_value := getitem pred target in
  let* pred' := index_fill pred filter 0%Q in
  index_fill pred' [target] target_value.

(** ** Sorting and ranking (main.py lines 134-142) *)

(** Descending insertion that keeps the earlier index first on equal
    scores. *)
Fixpoint insert_desc (x : nat * Q) (l : list (nat * Q)) : list (nat * Q) :=
  match l with
  | [] => [x]
  | y :: l' =>
      if Qle_bool (snd y) (snd x) then x :: y :: l'
      else y :: insert_desc x l'
  end.

Definition sort_desc (l : list (nat * Q)) : list (nat * Q) :=
  foldr insert_desc [] l.

(** The index part of [torch.sort(pred, 1, descending=True)] on one row. *)
Definition argsort (row : list Q) : list nat :=
  fst <$> sort_desc (zip (seq 0 (length row)) row).

(** [np.where(arr == x)[0][0]] *)
Definition where_first (arr : list nat) (x : nat) : result nat :=
  match list_find (fun y => y = x) arr with
  | Some (k, _) => Ok k
  | None => Raise IndexError
  end.

(** The zero-based position of [target] in the sorted row, as [rank1] and
    [rank2] of the source. *)
Definition position (row : list Q) (target : nat) : result nat :=
  where_first (argsort row) target.

(** The rank appended to the rank lists: [rank + 1]. *)
Definition filtered_rank (pred : list Q) (target : nat) (filter : list nat)
  : result nat :=
  let* row := filter_row pred target filter in
  let* k := position row target in
  Ok (k + 1).

(** ** Accumulators of one evaluation pass (main.py lines 86-95) *)

Record accum : Type := {
  hits_left : list (list Q);
  hits_right : list (list Q);
  hits : list (list Q);
  ranks : list nat;
  ranks_left : list nat;
  ranks_right : list nat
}.

Definition accum_init : accum :=
  {| hits_left := replicate 10 [];
     hits_right := replicate 10 [];
     hits := replicate 10 [];
     ranks := [];
     ranks_left := [];
     ranks_right := [] |}.

(** [lists[level].append(x)] *)
Definition append_at (level : nat) (x : Q) (lists : list (list Q))
  : list (list Q) :=
  alter (fun l => l ++ [x]) level lists.

(** [1.0 if rank <= hits_level else 0.0], on the zero-based rank. *)
Definition hit (rank hits_level : nat) : Q :=
  if rank <=? hits_level then 1%Q else 0%Q.

(** Body of [for hits_level in range(10)] (lines 150-163). *)
Definition hits_step (rank1 rank2 : nat) (a : accum) (hits_level : nat)
  : accum :=
  {| hits_left := append_at hits_level (hit rank1 hits_level) (hits_left a);
     hits_right := append_at hits_level (hit rank2 hits_level) (hits_right a);
     hits := append_at hits_level (hit rank2 hits_level)
               (append_at hits_level (hit rank1 hits_level) (hits a));
     ranks := ranks a;
     ranks_left := ranks_left a;
     ranks_right := ranks_right a |}.

(** Lines 144-163 for one example, given its two zero-based ranks. *)
Definition record_ranks (rank1 rank2 : nat) (a : accum) : accum :=
  let a' :=
    {| hits_left := hits_left a;
       hits_right := hits_right a;
       hits := hits a;
       ranks := (ranks a ++ [rank1 + 1]) ++ [rank2 + 1];
       ranks_left := ranks_left a ++ [rank1 + 1];
       ranks_right := ranks_right a ++ [rank2 + 1] |} in
  foldl (hits_step rank1 rank2) a' (seq 0 10).

(** ** One evaluation example

    [pred1] is the score row of the query (e1, rel, ?), whose target is
    [e2] and whose filter is [e2_multi1]; [pred2] is the score row of the
    query (e2, rel_reverse, ?), whose target is [e1] and whose filter is
    [e2_multi2].  The rows are what the model returned for the example.
    The filters are the index rows as read by [.long()] after the
    [.float()] of line 102; vocabulary ids are non-negative and far below
    the size at which that conversion stops being exact. *)
Record example : Type := {
  e1 : nat;
  e2 : nat;
  e2_multi1 : list nat;
  e2_multi2 : list nat;
  pred1 : list Q;
  pred2 : list Q
}.

(** Body of the first loop over a batch (lines 117-131), in the order of
    the source. *)
Definition filter_example (ex : example) : result (list Q * list Q) :=
  let filter1 := e2_multi1 ex in
  let filter2 := e2_multi2 ex in
  let* target_value1 := getitem (pred1 ex) (e2 ex) in
  let* target_value2 := getitem (pred2 ex) (e1 ex) in
  let* p1 := index_fill (pred1 ex) filter1 0%Q in
  let* p2 := index_fill (pred2 ex) filter2 0%Q in
  let* p1' := index_fill p1 [e2 ex] target_value1 in
  let* p2' := index_fill p2 [e1 ex] target_value2 in
  Ok (p1', p2').

(** Body of the second loop over a batch (lines 139-163). *)
Definition rank_example (a : accum)
  (x : example * (list nat * list nat)) : result accum :=
  let '(ex, (argsort1, argsort2)) := x in
  let* rank1 := where_first argsort1 (e2 ex) in
  let* rank2 := where_first argsort2 (e1 ex) in
  Ok (record_ranks rank1 rank2 a).

(** Body of the loop over the batches (lines 97-163). *)
Definition batch_step (a : accum) (batch : list example) : result accum :=
  let* filtered := mapM_result filter_example batch in
  let sorted := (fun p => (argsort (fst p), argsort (snd p))) <$> filtered in
  foldM rank_example a (zip batch sorted).

(** ** Aggregates (lines 167-190) *)

Fixpoint Qsum (l : list Q) : Q :=
  match l with
  | [] => 0%Q
  | x :: l' => (x + Qsum l')%Q
  end.

(** [np.mean], as the exact mean: the sum and the division are not
    rounded.  The mean of an empty sequence is not a number, [None]. *)
Definition np_mean (l : list Q) : option Q :=
  match l with
  | [] => None
  | _ => Some (Qsum l / inject_Z (Z.of_nat (length l)))%Q
  end.

Definition of_rank (r : nat) : Q := inject_Z (Z.of_nat r).

(** [1.0 / np.array(ranks)] *)
Definition reciprocals (rs : list nat) : list Q :=
  (fun r => (1 / of_rank r)%Q) <$> rs.

Record metrics : Type := {
  Hits_left : list (option Q);
  Hits_right : list (option Q);
  Hits : list (option Q);
  Mean_rank_left : option Q;
  Mean_rank_right : option Q;
  Mean_rank : option Q;
  Mean_reciprocal_rank_left : option Q;
  Mean_reciprocal_rank_right : option Q;
  Mean_reciprocal_rank : option Q
}.

(** The numbers printed after the pass; entry [i] of the hit lists is
    the line "Hits @i+1". *)
Definition report (a : accum) : metrics :=
  {| Hits_left := np_mean <$> hits_left a;
     Hits_right := np_mean <$> hits_right a;
     Hits := np_mean <$> hits a;
     Mean_rank_left := np_mean (of_rank <$> ranks_left a);
     Mean_rank_right := np_mean (of_rank <$> ranks_right a);
     Mean_rank := np_mean (of_rank <$> ranks a);
     Mean_reciprocal_rank_left := np_mean (reciprocals (ranks_left a));
     Mean_reciprocal_rank_right := np_mean (reciprocals (ranks_right a));
     Mean_reciprocal_rank := np_mean (reciprocals (ranks a)) |}.

(** The accumulators at the end of the loop over the batches. *)
Definition evaluate (dev_rank_batcher : list (list example)) : result accum :=
  foldM batch_step accum_init dev_rank_batcher.

(** [ranking_and_hits_this]: the printed metrics and the returned value. *)
Definition ranking_and_hits_this (dev_rank_batcher : list (list example))
  : result (metrics * option Q) :=
  let* a := evaluate dev_rank_batcher in
  Ok (report a, np_mean (reciprocals (ranks a))).

(** ** Model selection and the order of the two scripts *)

Module Config.

Local Open Scope string_scope.

(** The runs are observed through the collaborators they call. *)
Inductive event : Type :=
  | LoadDataset
  | BuildGraph
  | LoadGraph
  | ConstructModel
  | LoadCheckpoint
  | BuildOptimizer
  | Train
  | Evaluate (name : string)
  | RemoveCheckpoint.

Definition trains_or_evaluates (ev : event) : bool :=
  match ev with
  | Train | Evaluate _ => true
  | _ => false
  end.

(** A run: the events so far and how it ended. *)
Definition run (A : Type) : Type := list event * result A.

Definition emit (ev : event) : run unit := ([ev], Ok tt).

Definition lift {A : Type} (r : result A) : run A := ([], r).

Definition seq_run {A B : Type} (m : run A) (k : A -> run B) : run B :=
  match m with
  | (tr, Ok a) => let '(tr', r) := k a in ((tr ++ tr')%list, r)
  | (tr, Raise e) => (tr, Raise e)
  end.

Notation "'run*' x := m 'in' k" := (seq_run m (fun x => k))
  (at level 10, x name, m at level 100, k at level 200,
   format "'[v' 'run*'  x  :=  m  'in' '/' k ']'").
Notation "m >> k" := (seq_run m (fun _ => k))
  (at level 100, k at level 200, right associativity).

Fixpoint repeat_run (n : nat) (body : nat -> run unit) (i : nat) : run unit :=
  match n with
  | O => ([], Ok tt)
  | S n' => body i >> repeat_run n' body (S i)
  end.

(** [for epoch in range(epochs): body(epoch)] *)
Definition for_range (epochs : nat) (body : nat -> run unit) : run unit :=
  repeat_run epochs body 0.

(** *** kg_completion/main.py *)

Inductive kgc_model : Type :=
  | ConvE | Distmult | Complex | GGNNDistMult | GCNDistMult | GCNComplex.

(** [KGC.__init__], lines 28-43; [model] is [cfg["model"]], [None] when
    the entry is null. *)
Definition KGC (model : option string) : result kgc_model :=
  match model with
  | None => Ok ConvE
  | Some m =>
      if m =? "conve" then Ok ConvE
      else if m =? "distmult" then Ok Distmult
      else if m =? "complex" then Ok Complex
      else if m =? "ggnn_distmult" then Ok GGNNDistMult
      else if m =? "gcn_distmult" then Ok GCNDistMult
      else if m =? "gcn_complex" then Ok GCNComplex
      else Raise (Exception "Unknown model type!")
  end.

Record kgc_cfg : Type := {
  model : option string;
  preprocess : bool;
  resume : bool;
  epochs : nat
}.

(** [main] of kg_completion/main.py, lines 193-354: which collaborator
    is called when.  The numbers that the calls exchange are left out. *)
Definition kgc_main (cfg : kgc_cfg) : run unit :=
  emit LoadDataset >>
  (if preprocess cfg then emit BuildGraph else emit LoadGraph) >>
  run* m := (run* _ := emit ConstructModel in lift (KGC (model cfg))) in
  (if resume cfg
   then emit LoadCheckpoint >>
        emit (Evaluate "test_evaluation") >>
        emit (Evaluate "dev_evaluation")
   else ([], Ok tt)) >>
  emit BuildOptimizer >>
  for_range (epochs cfg) (fun epoch =>
    emit Train >>
    (if (epoch mod 2 =? 0)%nat && (0 <? epoch)%nat
     then emit (Evaluate "dev_evaluation") else ([], Ok tt)) >>
    (if (epoch mod 2 =? 0)%nat
     then if (0 <? epoch)%nat
          then emit (Evaluate "test_evaluation") else ([], Ok tt)
     else ([], Ok tt))).

(** *** text_classification/run_text_classifier.py *)

Inductive graph_topology : Type :=
  | DependencyBasedGraphConstruction
  | ConstituencyBasedGraphConstruction
  | NodeEmbeddingBasedGraphConstruction
  | NodeEmbeddingBasedRefinedGraphConstruction.

(** [TextClassifier.__init__], lines 37-85. *)
Definition TextClassifier (graph_type : string) : result graph_topology :=
  if graph_type =? "dependency" then Ok DependencyBasedGraphConstruction
  else if graph_type =? "constituency"
  then Ok ConstituencyBasedGraphConstruction
  else if graph_type =? "node_emb" then Ok NodeEmbeddingBasedGraphConstruction
  else if graph_type =? "node_emb_refined"
  then Ok NodeEmbeddingBasedRefinedGraphConstruction
  else Raise (RuntimeError ("Unknown graph_type: " ++ graph_type)).

(** [ModelHandler._build_dataloader], lines 145-158: the topology builder
    and the kind of graph.  The last branch formats [config.graph_type],
    and [config] is not a name of that method nor of the module. *)
Definition build_dataloader (graph_type : string)
  : result (graph_topology * string) :=
  if graph_type =? "dependency"
  then Ok (DependencyBasedGraphConstruction, "static")
  else if graph_type =? "constituency"
  then Ok (ConstituencyBasedGraphConstruction, "static")
  else if graph_type =? "node_emb"
  then Ok (NodeEmbeddingBasedGraphConstruction, "dynamic")
  else if graph_type =? "node_emb_refined"
  then Ok (NodeEmbeddingBasedRefinedGraphConstruction, "dynamic")
  else Raise (NameError "name 'config' is not defined").

(** [ModelHandler.__init__], lines 136-142. *)
Definition ModelHandler (graph_type : string) : run graph_topology :=
  run* _ := lift (build_dataloader graph_type) in
  emit LoadDataset >>
  run* m := (run* _ := emit ConstructModel in
             lift (TextClassifier graph_type)) in
  emit BuildOptimizer >>
  ([], Ok m).

(** [ModelHandler.train], lines 197-223; [stop epoch] is the answer of the
    early stopper after that epoch. *)
Fixpoint train (n : nat) (stop : nat -> bool) (epoch : nat) : run unit :=
  match n with
  | O => ([], Ok tt)
  | S n' =>
      emit Train >>
      emit (Evaluate "val") >>
      (if stop epoch then ([], Ok tt) else train n' stop (S epoch))
  end.

(** [main] of run_text_classifier.py, lines 251-271. *)
Definition tc_main (graph_type : string) (epochs : nat) (stop : nat -> bool)
  : run unit :=
  run* _ := ModelHandler graph_type in
  train epochs stop 0 >>
  emit LoadCheckpoint >>
  emit (Evaluate "test") >>
  emit RemoveCheckpoint.

(** [s in t] on strings. *)
Fixpoint contains (s t : string) : bool :=
  String.prefix s t ||
  match t with
  | EmptyString => false
  | String _ t' => contains s t'
  end.

Definition kgc_models : list string :=
  ["conve"; "distmult"; "complex"; "ggnn_distmult"; "gcn_distmult";
   "gcn_complex"]%list.

Definition graph_types : list string :=
  ["dependency"; "constituency"; "node_emb"; "node_emb_refined"]%list.

(** No training and no evaluation among the events. *)
Definition quiet (tr : list event) : bool :=
  forallb (fun ev => negb (trains_or_evaluates ev)) tr.

Definition scenario_cfg : kgc_cfg :=
  {| model := Some "transe"; preprocess := false; resume := false;
     epochs := 4 |}.

(** The events of one epoch of the loop of [kgc_main]. *)
Definition epoch_events (epoch : nat) : list event :=
  Train ::
  (if (epoch mod 2 =? 0)%nat && (0 <? epoch)%nat
   then [Evaluate "dev_evaluation"; Evaluate "test_evaluation"]%list
   else []%list).

(** How many events of a run satisfy [p]. *)
Definition count (p : event -> bool) (tr : list event) : nat :=
  length (List.filter p tr).

Definition is_train (ev : event) : bool :=
  match ev with
  | Train => true
  | _ => false
  end.

Definition is_evaluate (name : string) (ev : event) : bool :=
  match ev with
  | Evaluate n => n =? name
  | _ => false
  end.

(** The events of [kgc_main] before its first epoch. *)
Definition setup_events (cfg : kgc_cfg) : list event :=
  ([LoadDataset; if preprocess cfg then BuildGraph else LoadGraph;
    ConstructModel] ++
   (if resume cfg
    then [LoadCheckpoint; Evaluate "test_evaluation";
          Evaluate "dev_evaluation"]
    else []) ++
   [BuildOptimizer])%list.

Definition trained_cfg : kgc_cfg :=
  {| model := Some "distmult"; preprocess := true; resume := false;
     epochs := 5 |}.

End Config.

(** ** Vocabulary of the statements *)

(** The row that is sorted: the target reads its own score, every other
    filter index reads [0.0], and the rest is unchanged. *)
Definition filtered_at (pred : list Q) (target : nat) (filter : list nat)
  (j : nat) : option Q :=
  if decide (j = target) then pred !! target
  else if decide (j ∈ filter) then Some 0%Q
  else pred !! j.

(** Scores do not increase along the sorted order. *)
Definition desc (a b : nat * Q) : Prop := (snd b <= snd a)%Q.

(** The two zero-based ranks of one example, as the two loops over a
    batch compute them. *)
Definition example_ranks (ex : example) : result (nat * nat) :=
  let* p := filter_example ex in
  let* rank1 := where_first (argsort (fst p)) (e2 ex) in
  let* rank2 := where_first (argsort (snd p)) (e1 ex) in
  Ok (rank1, rank2).

Definition record_all (rk : list (nat * nat)) (a : accum) : accum :=
  foldl (fun a r => record_ranks (fst r) (snd r) a) a rk.

(** The entries that the pairs [rk] contribute to a combined list, a left
    one and then a right one for every pair. *)
Fixpoint both {A : Type} (f : nat -> A) (rk : list (nat * nat)) : list A :=
  match rk with
  | [] => []
  | r :: rk' => f (fst r) :: f (snd r) :: both f rk'
  end.

Definition Qlen {A : Type} (l : list A) : Q := inject_Z (Z.of_nat (length l)).

Definition scores5 : list Q := [1#10; 9#10; 3#10; 5#100; 2#10]%Q.

(** The filter without the target. *)
Definition without (target : nat) (idx : list nat) : list nat :=
  filter (fun j => j <> target) idx.

(** The rank of the target when the row is only zeroed at [idx], with no
    score saved or written back. *)
Definition zeroed_rank (pred : list Q) (target : nat) (idx : list nat)
  : result nat :=
  let* row := index_fill pred idx 0%Q in
  let* k := position row target in
  Ok (k + 1).

Definition padded_row : list Q := [9#10; 5#10; 1#10]%Q.

(** The example of the two scenarios, one per direction: the query with
    target 1 and no filter on the left, the query with target 4 and
    filter [1] on the right. *)
Definition scenario : example :=
  {| e1 := 4; e2 := 1; e2_multi1 := []; e2_multi2 := [1];
     pred1 := scores5; pred2 := scores5 |}.

(** An example whose targets and filter indices lie within its rows. *)
Definition wf_example (ex : example) : Prop :=
  e2 ex < length (pred1 ex) /\
  e1 ex < length (pred2 ex) /\
  Forall (fun j => j < length (pred1 ex)) (e2_multi1 ex) /\
  Forall (fun j => j < length (pred2 ex)) (e2_multi2 ex).

(** [x] is the unweighted average of [l] and [r], all three defined. *)
Definition averaged (x l r : option Q) : Prop :=
  exists x' l' r', x = Some x' /\ l = Some l' /\ r = Some r' /\
                   (x' == (l' + r') / 2)%Q.

(** Entries [k] and [k + 1] of a list of rates are defined and in order. *)
Definition increasing_at (rates : list (option Q)) (k : nat) : Prop :=
  exists x y, rates !! k = Some (Some x) /\ rates !! S k = Some (Some y) /\
              (x <= y)%Q.

(** The metrics and the returned value of the pass over [scenario]. *)
Definition scenario_metrics : metrics := report (record_all [(0, 1)] accum_init).
Definition scenario_mrr : option Q :=
  np_mean (reciprocals (ranks (record_all [(0, 1)] accum_init))).

(** ** Counting scores *)

#[global] Instance Qlt_decision (x y : Q) : Decision (x < y)%Q :=
  match Qlt_le_dec x y with
  | left H => left H
  | right H => right (Qle_not_lt y x H)
  end.

#[global] Instance Qle_decision (x y : Q) : Decision (x <= y)%Q :=
  match Qlt_le_dec y x with
  | left H => right (Qlt_not_le y x H)
  | right H => left H
  end.

(** How many entries of [row] score strictly above [v], and how many
    score at least [v]. *)
Definition count_above (v : Q) (row : list Q) : nat :=
  length (filter (fun x => (v < x)%Q) row).

Definition count_at_least (v : Q) (row : list Q) : nat :=
  length (filter (fun x => (v <= x)%Q) row).

(** The fraction of the ranks [rs] that are at most [k]. *)
Definition within (k : nat) (rs : list nat) : Q :=
  (Qlen (filter (fun r => (r <= k)%nat) rs) / Qlen rs)%Q.

(** The accumulators after the pass over [scenario]. *)
Definition scenario_accum : accum := record_all [(0, 1)] accum_init.

(** ** [KGC.post_process] (main.py lines 64-71)

    For a batch of one query, the only size for which the final [.item()]
    is defined: [logits] is the row of scores and [e2] the target entity.
    The result is the rank that is printed and the entity that is
    returned. *)
Definition post_process (logits : list Q) (e2 : nat) : result (nat * nat) :=
  let argsort1 := argsort logits in
  let* rank1 := where_first argsort1 e2 in
  match argsort1 !! 0 with
  | Some top => Ok (rank1 + 1, top)
  | None => Raise IndexError
  end.

(** ** Collecting the edges of the graph (main.py lines 236-246)

    One training example of a batch: [str2var["e1"][j]], [str2var["rel"][j]]
    and the row [str2var["e2_multi1"][j]]. *)
Record train_example : Type := {
  t_e1 : nat;
  t_rel : nat;
  t_e2_multi1 : list nat
}.

(** The three lists [data], [rows] and [columns]. *)
Record edges : Type := {
  data : list nat;
  rows : list nat;
  columns : list nat
}.

(** [for k in range(...)]: append while the entry is not 0, [break] at the
    first 0. *)
Fixpoint collect_row (e1 rel : nat) (row : list nat) (acc : edges) : edges :=
  match row with
  | [] => acc
  | o :: row' =>
      if negb (o =? 0)
      then collect_row e1 rel row'
             {| data := data acc ++ [rel];
                rows := rows acc ++ [e1];
                columns := columns acc ++ [o] |}
      else acc
  end.

(** The loops over the batches and over the examples of a batch. *)
Definition preprocess (train_dataloader : list (list train_example)) : edges :=
  foldl (fun acc batch =>
           foldl (fun acc ex =>
                    collect_row (t_e1 ex) (t_rel ex) (t_e2_multi1 ex) acc)
                 acc batch)
        {| data := []; rows := []; columns := [] |} train_dataloader.

(** [zip(rows, data, columns)], the triples (e1, rel, e2) of line 252. *)
Definition triples (acc : edges) : list (nat * (nat * nat)) :=
  zip (rows acc) (zip (data acc) (columns acc)).

(** The objects of a row that precede its first 0. *)
Fixpoint before_zero (row : list nat) : list nat :=
  match row with
  | [] => []
  | o :: row' => if negb (o =? 0) then o :: before_zero row' else []
  end.

(** The triples that one example and a list of examples contribute. *)
Definition edge_list (ex : train_example) : list (nat * (nat * nat)) :=
  (fun o => (t_e1 ex, (t_rel ex, o))) <$> before_zero (t_e2_multi1 ex).

Fixpoint all_edges (exs : list train_example) : list (nat * (nat * nat)) :=
  match exs with
  | [] => []
  | ex :: exs' => edge_list ex ++ all_edges exs'
  end.

(** The three lists with the triples [l] appended. *)
Definition extend (acc : edges) (l : list (nat * (nat * nat))) : edges :=
  {| data := data acc ++ ((fun p => fst (snd p)) <$> l);
     rows := rows acc ++ (fst <$> l);
     columns := columns acc ++ ((fun p => snd (snd p)) <$> l) |}.

(** ** Keeping the best model over the epochs (main.py lines 304-343)

    [dev_mrr epoch] is the value that the dev evaluation after [epoch]
    returns, [None] for not-a-number, on which [dev_mrr > best_mrr] is
    false.  The result is the final [best_mrr] and the epochs after which
    the model was saved.  The evaluations of a resumed run (lines 290-295)
    come before [best_mrr = 0] and their values are not kept. *)
Fixpoint best_loop (n : nat) (dev_mrr : nat -> option Q) (epoch : nat)
  (best_mrr : Q) (saved : list nat) : Q * list nat :=
  match n with
  | O => (best_mrr, saved)
  | S n' =>
      if (epoch mod 2 =? 0) && (0 <? epoch)
      then match dev_mrr epoch with
           | Some m =>
               if decide (best_mrr < m)%Q
               then best_loop n' dev_mrr (S epoch) m (saved ++ [epoch])
               else best_loop n' dev_mrr (S epoch) best_mrr saved
           | None => best_loop n' dev_mrr (S epoch) best_mrr saved
           end
      else best_loop n' dev_mrr (S epoch) best_mrr saved
  end.

(** [best_mrr = 0] and [for epoch in range(cfg["epochs"])]. *)
Definition kgc_best (epochs : nat) (dev_mrr : nat -> option Q) : Q * list nat :=
  best_loop epochs dev_mrr 0 0%Q [].

(** The dev set is evaluated after [epoch] in the run of [kgc_main]. *)
Definition dev_evaluated (epoch : nat) : Prop :=
  In (Config.Evaluate "dev_evaluation") (Config.epoch_events epoch).

(** The dev values of a run of five epochs. *)
Definition five_epochs (epoch : nat) : option Q :=
  match epoch with
  | 2 => Some (1#2)%Q
  | 4 => Some (3#4)%Q
  | _ => None
  end.



(** ** The hit rates as float64 numbers

    [np.mean] computes in float64.  A hit list holds the numbers 1.0 and
    0.0, so every partial sum is a whole number far below 2^53: the sum is
    exact in whatever order the entries are added, and the division by the
    length is the only rounding. *)

#[global] Instance Qeq_decision (x y : Q) : Decision (x == y)%Q := Qeq_dec x y.

Fixpoint float_of_nat (n : nat) : PrimFloat.float :=
  match n with
  | O => PrimFloat.zero
  | S n' => PrimFloat.add (float_of_nat n') PrimFloat.one
  end.

(** The float64 entry of a hit list, 1.0 or 0.0. *)
Definition hit64 (x : Q) : PrimFloat.float :=
  if decide (x == 1)%Q then PrimFloat.one else PrimFloat.zero.

(** [np.mean] of a list of float64 numbers. *)
Definition np_mean64 (l : list PrimFloat.float) : option PrimFloat.float :=
  match l with
  | [] => None
  | _ => Some (PrimFloat.div (foldl PrimFloat.add PrimFloat.zero l)
                             (float_of_nat (length l)))
  end.

(** Five examples over two entities whose zero-based ranks are (0,0),
    (1,0), (1,1), (1,1) and (1,1). *)
Definition two_scores : list Q := [9#10; 1#10]%Q.

Definition five_examples : list example :=
  [ {| e1 := 0; e2 := 0; e2_multi1 := []; e2_multi2 := [];
       pred1 := two_scores; pred2 := two_scores |};
    {| e1 := 0; e2 := 1; e2_multi1 := []; e2_multi2 := [];
       pred1 := two_scores; pred2 := two_scores |};
    {| e1 := 1; e2 := 1; e2_multi1 := []; e2_multi2 := [];
       pred1 := two_scores; pred2 := two_scores |};
    {| e1 := 1; e2 := 1; e2_multi1 := []; e2_multi2 := [];
       pred1 := two_scores; pred2 := two_scores |};
    {| e1 := 1; e2 := 1; e2_multi1 := []; e2_multi2 := [];
       pred1 := two_scores; pred2 := two_scores |} ].

(** * Properties *)

(** ** Fallible computations *)

Lemma bind_Ok {A B : Type} (m : result A) (k : A -> result B) (b : B) :
  bind m k = Ok b <-> exists a, m = Ok a /\ k a = Ok b.
Proof.
  destruct m as [a|e]; simpl; split.
  - intros H. exists a. auto.
  - intros (a' & Ha & Hk). congruence.
  - discriminate.
  - intros (a' & Ha & _). discriminate.
Qed.

(** ** Tensor rows *)

Lemma getitem_Ok (row : list Q) (j : nat) (v : Q) :
  getitem row j = Ok v <-> row !! j = Some v.
Proof.
  unfold getitem. destruct (row !! j); split; intros H; congruence.
Qed.

Lemma index_fill_total (idx : list nat) : forall (row : list Q) (v : Q),
  Forall (fun j => j < length row) idx ->
  exists row', index_fill row idx v = Ok row'.
Proof.
  induction idx as [|j idx IH]; intros row v Hall; simpl.
  - eauto.
  - inversion Hall as [|? ? Hj Hrest]; subst.
    destruct (Nat.ltb_spec j (length row)) as [_|Hge]; [|lia].
    apply IH. rewrite length_insert. exact Hrest.
Qed.

Lemma index_fill_in_range (idx : list nat) : forall (row row' : list Q) (v : Q),
  index_fill row idx v = Ok row' ->
  Forall (fun j => j < length row) idx /\ length row' = length row.
Proof.
  induction idx as [|j idx IH]; intros row row' v H; simpl in H.
  - injection H as <-. split; [constructor | reflexivity].
  - destruct (Nat.ltb_spec j (length row)) as [Hlt|_]; [|discriminate].
    apply IH in H as [Hall Hlen]. rewrite length_insert in Hall, Hlen.
    split; [constructor; assumption | assumption].
Qed.

(** What a row reads after [row[idx] = v]. *)
Lemma index_fill_lookup (idx : list nat) : forall (row row' : list Q) (v : Q) (j : nat),
  index_fill row idx v = Ok row' ->
  row' !! j = if decide (j ∈ idx) then Some v else row !! j.
Proof.
  induction idx as [|i idx IH]; intros row row' v j H; simpl in H.
  - injection H as <-. rewrite decide_False; [reflexivity | apply not_elem_of_nil].
  - destruct (Nat.ltb_spec i (length row)) as [Hlt|_]; [|discriminate].
    rewrite (IH _ _ _ j H).
    destruct (decide (j ∈ idx)) as [Hin|Hnin].
    + rewrite decide_True; [reflexivity | apply elem_of_cons; by right].
    + destruct (decide (j = i)) as [->|Hne].
      * rewrite decide_True by (apply elem_of_cons; by left).
        by apply list_lookup_insert_eq.
      * rewrite decide_False.
        -- by apply list_lookup_insert_ne.
        -- intros Hin. apply elem_of_cons in Hin as [?|?]; contradiction.
Qed.

(** ** The filter step *)

Lemma filter_row_Ok (pred : list Q) (target : nat) (filter : list nat)
  (row : list Q) :
  filter_row pred target filter = Ok row <->
  target < length pred /\ Forall (fun j => j < length pred) filter /\
  length row = length pred /\
  forall j, row !! j = filtered_at pred target filter j.
Proof.
  unfold filter_row. split.
  - intros H.
    apply bind_Ok in H as (tv & Htv & H). apply getitem_Ok in Htv.
    apply bind_Ok in H as (pred' & Hz & H).
    pose proof (index_fill_in_range _ _ _ _ Hz) as [Hall Hlen'].
    pose proof (index_fill_in_range _ _ _ _ H) as [_ Hlen].
    split; [by eapply lookup_lt_Some|].
    split; [assumption|]. split; [congruence|].
    intros j. unfold filtered_at.
    rewrite (index_fill_lookup _ _ _ _ j H), (index_fill_lookup _ _ _ _ j Hz).
    destruct (decide (j = target)) as [->|Hne].
    + rewrite decide_True by (apply elem_of_cons; by left). by rewrite Htv.
    + rewrite decide_False; [reflexivity|].
      intros Hin. apply list_elem_of_singleton in Hin. contradiction.
  - intros (Ht & Hall & Hlen & Hrow).
    destruct (lookup_lt_is_Some_2 pred target Ht) as [tv Htv].
    apply bind_Ok. exists tv. split; [by apply getitem_Ok|].
    destruct (index_fill_total filter pred 0%Q Hall) as [pred' Hz].
    apply bind_Ok. exists pred'. split; [assumption|].
    pose proof (index_fill_in_range _ _ _ _ Hz) as [_ Hlen'].
    destruct (index_fill_total [target] pred' tv) as [row' Hr].
    { constructor; [lia | constructor]. }
    rewrite Hr. f_equal. apply list_eq. intros j.
    rewrite (Hrow j). unfold filtered_at.
    rewrite (index_fill_lookup _ _ _ _ j Hr), (index_fill_lookup _ _ _ _ j Hz).
    destruct (decide (j = target)) as [->|Hne].
    + rewrite decide_True by (apply elem_of_cons; by left). by rewrite Htv.
    + rewrite decide_False; [reflexivity|].
      intros Hin. apply list_elem_of_singleton in Hin. contradiction.
Qed.

Lemma filter_row_total (pred : list Q) (target : nat) (filter : list nat) :
  target < length pred -> Forall (fun j => j < length pred) filter ->
  exists row, filter_row pred target filter = Ok row.
Proof.
  intros Ht Hall. unfold filter_row.
  destruct (lookup_lt_is_Some_2 pred target Ht) as [tv Htv].
  unfold getitem. rewrite Htv. cbn [bind].
  destruct (index_fill_total filter pred 0%Q Hall) as [pred' Hz].
  rewrite Hz. cbn [bind].
  pose proof (index_fill_in_range _ _ _ _ Hz) as [_ Hlen'].
  apply index_fill_total. constructor; [lia | constructor].
Qed.

(** ** Sorting and ranking *)

Lemma insert_desc_perm (x : nat * Q) (l : list (nat * Q)) :
  insert_desc x l ≡ₚ x :: l.
Proof.
  induction l as [|y l IH]; simpl; [reflexivity|].
  destruct (Qle_bool (snd y) (snd x)); [reflexivity|].
  rewrite IH. apply Permutation_swap.
Qed.

Lemma sort_desc_perm (l : list (nat * Q)) : sort_desc l ≡ₚ l.
Proof.
  induction l as [|x l IH]; simpl; [reflexivity|].
  rewrite insert_desc_perm. by rewrite IH.
Qed.

(** The sorted indices are the indices of the row, each once. *)
Lemma argsort_perm (row : list Q) : argsort row ≡ₚ seq 0 (length row).
Proof.
  unfold argsort. rewrite sort_desc_perm.
  rewrite fst_zip; [reflexivity|]. by rewrite length_seq.
Qed.

Lemma argsort_length (row : list Q) : length (argsort row) = length row.
Proof. by rewrite argsort_perm, length_seq. Qed.

Lemma insert_desc_sorted (x : nat * Q) (l : list (nat * Q)) :
  Sorted desc l -> Sorted desc (insert_desc x l).
Proof.
  induction l as [|y l IH]; intros Hs; simpl.
  - repeat constructor.
  - destruct (Qle_bool (snd y) (snd x)) eqn:Hle.
    + constructor; [assumption|]. constructor. by apply Qle_bool_iff.
    + apply Sorted_inv in Hs as [Hs Hhd].
      constructor; [by apply IH|].
      assert (Hxy : desc y x).
      { unfold desc. apply Qlt_le_weak, Qnot_le_lt.
        intros Hc. apply Qle_bool_iff in Hc. congruence. }
      destruct l as [|z l]; simpl.
      * by constructor.
      * destruct (Qle_bool (snd z) (snd x)); constructor;
          [assumption | by inversion Hhd].
Qed.

Lemma sort_desc_sorted (l : list (nat * Q)) : Sorted desc (sort_desc l).
Proof.
  induction l as [|x l IH]; simpl; [constructor|].
  by apply insert_desc_sorted.
Qed.

Lemma where_first_Ok (arr : list nat) (x k : nat) :
  where_first arr x = Ok k <->
  arr !! k = Some x /\ forall j y, arr !! j = Some y -> j < k -> y <> x.
Proof.
  unfold where_first.
  destruct (list_find (fun y => y = x) arr) as [[k' y]|] eqn:Hf.
  - apply list_find_Some in Hf as (Hk & -> & Hbefore). split.
    + intros [= <-]. split; [assumption|]. exact Hbefore.
    + intros (Hk2 & Hb2). f_equal.
      destruct (Nat.lt_trichotomy k' k) as [Hlt|[->|Hgt]]; [|reflexivity|].
      * exfalso. by apply (Hb2 k' x).
      * exfalso. by apply (Hbefore k x).
  - apply list_find_None in Hf. split; [discriminate|].
    intros (Hk & _). exfalso.
    rewrite Forall_forall in Hf. apply (Hf x); [|reflexivity].
    by eapply list_elem_of_lookup_2.
Qed.

Lemma where_first_total (arr : list nat) (x : nat) :
  x ∈ arr -> exists k, where_first arr x = Ok k /\ k < length arr.
Proof.
  intros Hin. unfold where_first.
  destruct (list_find (fun y => y = x) arr) as [[k y]|] eqn:Hf.
  - exists k. split; [reflexivity|].
    apply list_find_Some in Hf as (Hk & _). by eapply lookup_lt_Some.
  - apply list_find_None in Hf. rewrite Forall_forall in Hf.
    exfalso. by apply (Hf x).
Qed.

Lemma where_first_in_range (arr : list nat) (x k : nat) :
  where_first arr x = Ok k -> k < length arr /\ x ∈ arr.
Proof.
  intros H. apply where_first_Ok in H as (Hk & _).
  split; [by eapply lookup_lt_Some | by eapply list_elem_of_lookup_2].
Qed.

(** The target of a row is found, whatever the order of equal scores. *)
Lemma position_total (row : list Q) (target : nat) :
  target < length row ->
  exists k, position row target = Ok k /\ k < length row.
Proof.
  intros Ht. unfold position.
  destruct (where_first_total (argsort row) target) as (k & Hk & Hlt).
  - rewrite argsort_perm. apply elem_of_seq. lia.
  - exists k. split; [assumption|]. by rewrite <- argsort_length.
Qed.

Lemma position_in_range (row : list Q) (target k : nat) :
  position row target = Ok k -> k < length row /\ target < length row.
Proof.
  unfold position. intros H. apply where_first_in_range in H as [Hk Hin].
  rewrite argsort_length in Hk. split; [assumption|].
  rewrite argsort_perm in Hin. apply elem_of_seq in Hin. lia.
Qed.

(** ** The evaluation pass *)

Lemma filter_example_Ok (ex : example) (p1 p2 : list Q) :
  filter_example ex = Ok (p1, p2) <->
  filter_row (pred1 ex) (e2 ex) (e2_multi1 ex) = Ok p1 /\
  filter_row (pred2 ex) (e1 ex) (e2_multi2 ex) = Ok p2.
Proof.
  unfold filter_example, filter_row.
  destruct (getitem (pred1 ex) (e2 ex)) as [tv1|]; cbn [bind];
    [|split; [discriminate | intros [? _]; discriminate]].
  destruct (getitem (pred2 ex) (e1 ex)) as [tv2|]; cbn [bind];
    [|split; [discriminate | intros [_ ?]; discriminate]].
  destruct (index_fill (pred1 ex) (e2_multi1 ex) 0%Q) as [q1|]; cbn [bind];
    [|split; [discriminate | intros [? _]; discriminate]].
  destruct (index_fill (pred2 ex) (e2_multi2 ex) 0%Q) as [q2|]; cbn [bind];
    [|split; [discriminate | intros [_ ?]; discriminate]].
  destruct (index_fill q1 [e2 ex] tv1) as [q1'|]; cbn [bind];
    [|split; [discriminate | intros [? _]; discriminate]].
  destruct (index_fill q2 [e1 ex] tv2) as [q2'|]; cbn [bind];
    [|split; [discriminate | intros [_ ?]; discriminate]].
  split; [intros [= -> ->]; by split | intros [[= ->] [= ->]]; reflexivity].
Qed.

(** The ranks of the pass are the filtered ranks of its examples. *)
Lemma example_ranks_Ok (ex : example) (r1 r2 : nat) :
  example_ranks ex = Ok (r1, r2) <->
  filtered_rank (pred1 ex) (e2 ex) (e2_multi1 ex) = Ok (r1 + 1) /\
  filtered_rank (pred2 ex) (e1 ex) (e2_multi2 ex) = Ok (r2 + 1).
Proof.
  unfold example_ranks, filtered_rank, position. split.
  - intros H. apply bind_Ok in H as ([p1 p2] & Hf & H).
    apply filter_example_Ok in Hf as [Hf1 Hf2]. rewrite Hf1, Hf2.
    cbn [bind fst snd] in *.
    destruct (where_first (argsort p1) (e2 ex)); [|discriminate].
    destruct (where_first (argsort p2) (e1 ex)); [|discriminate].
    cbn [bind] in *. injection H as -> ->. by split.
  - intros [H1 H2].
    apply bind_Ok in H1 as (p1 & Hf1 & H1).
    apply bind_Ok in H2 as (p2 & Hf2 & H2).
    assert (Hf : filter_example ex = Ok (p1, p2))
      by (apply filter_example_Ok; by split).
    rewrite Hf. cbn [bind fst snd].
    destruct (where_first (argsort p1) (e2 ex)); [|discriminate].
    destruct (where_first (argsort p2) (e1 ex)); [|discriminate].
    cbn [bind] in *. injection H1 as H1. injection H2 as H2.
    f_equal. f_equal; lia.
Qed.

Lemma batch_step_cons (a a' : accum) (ex : example) (batch : list example) :
  batch_step a (ex :: batch) = Ok a' <->
  exists r, example_ranks ex = Ok r /\
            batch_step (record_ranks (fst r) (snd r) a) batch = Ok a'.
Proof.
  unfold batch_step, example_ranks. cbn [mapM_result].
  destruct (filter_example ex) as [p|]; cbn [bind];
    [|split; [discriminate | intros (? & ? & _); discriminate]].
  destruct (mapM_result filter_example batch) as [ps|]; cbn [bind].
  - cbn [fmap list_fmap zip zip_with foldM rank_example].
    destruct (where_first (argsort (fst p)) (e2 ex)) as [r1|]; cbn [bind];
      [|split; [discriminate | intros (? & ? & _); discriminate]].
    destruct (where_first (argsort (snd p)) (e1 ex)) as [r2|]; cbn [bind];
      [|split; [discriminate | intros (? & ? & _); discriminate]].
    split.
    + intros H. exists (r1, r2). by split.
    + intros (r & [= <-] & H). exact H.
  - split; [discriminate|]. intros (? & _ & ?). discriminate.
Qed.

Lemma batch_step_Ok (batch : list example) : forall (a a' : accum),
  batch_step a batch = Ok a' <->
  exists rk, mapM_result example_ranks batch = Ok rk /\ a' = record_all rk a.
Proof.
  induction batch as [|ex batch IH]; intros a a'.
  - cbn. split.
    + intros [= <-]. by exists [].
    + intros (rk & [= <-] & ->). reflexivity.
  - rewrite batch_step_cons. cbn [mapM_result]. split.
    + intros (r & Hr & H). apply IH in H as (rk & Hrk & ->).
      exists (r :: rk). rewrite Hr, Hrk. split; [reflexivity|].
      unfold record_all. cbn [foldl]. reflexivity.
    + intros (rk & H & ->).
      apply bind_Ok in H as (r & Hr & H).
      apply bind_Ok in H as (rk' & Hrk & [= <-]).
      exists r. split; [assumption|]. apply IH.
      exists rk'. split; [assumption|].
      unfold record_all. cbn [foldl]. reflexivity.
Qed.

Lemma mapM_result_app {A B : Type} (f : A -> result B) (l1 l2 : list A)
  (ys : list B) :
  mapM_result f (l1 ++ l2) = Ok ys <->
  exists ys1 ys2, mapM_result f l1 = Ok ys1 /\ mapM_result f l2 = Ok ys2 /\
                  ys = ys1 ++ ys2.
Proof.
  revert ys. induction l1 as [|x l1 IH]; intros ys; cbn [mapM_result app].
  - split.
    + intros H. by exists [], ys.
    + intros (ys1 & ys2 & [= <-] & H & ->). exact H.
  - destruct (f x) as [y|]; cbn [bind];
      [|split; [discriminate | intros (? & ? & ? & _); discriminate]].
    split.
    + intros H. apply bind_Ok in H as (ys' & H & [= <-]).
      apply IH in H as (ys1 & ys2 & H1 & H2 & ->).
      exists (y :: ys1), ys2. rewrite H1. by repeat split.
    + intros (ys1 & ys2 & H1 & H2 & ->).
      apply bind_Ok in H1 as (ys1' & H1 & [= <-]).
      apply bind_Ok. exists (ys1' ++ ys2). split; [|reflexivity].
      apply IH. by exists ys1', ys2.
Qed.

Lemma record_all_app (rk1 rk2 : list (nat * nat)) (a : accum) :
  record_all (rk1 ++ rk2) a = record_all rk2 (record_all rk1 a).
Proof. unfold record_all. apply foldl_app. Qed.

(** The accumulators after the pass: the examples of all batches, in
    order, each recorded once. *)
Lemma foldM_batch_step_Ok (batches : list (list example)) :
  forall (a a' : accum),
  foldM batch_step a batches = Ok a' <->
  exists rk, mapM_result example_ranks (concat batches) = Ok rk /\
             a' = record_all rk a.
Proof.
  induction batches as [|batch batches IH]; intros a a'; cbn [foldM concat].
  - split.
    + intros [= <-]. by exists [].
    + intros (rk & [= <-] & ->). reflexivity.
  - split.
    + intros H. apply bind_Ok in H as (a1 & H1 & H).
      apply batch_step_Ok in H1 as (rk1 & H1 & ->).
      apply IH in H as (rk2 & H2 & ->).
      exists (rk1 ++ rk2). split; [|by rewrite record_all_app].
      apply mapM_result_app. by exists rk1, rk2.
    + intros (rk & H & ->).
      apply mapM_result_app in H as (rk1 & rk2 & H1 & H2 & ->).
      apply bind_Ok. exists (record_all rk1 a). split.
      * apply batch_step_Ok. by exists rk1.
      * apply IH. exists rk2. split; [assumption | apply record_all_app].
Qed.

Lemma evaluate_Ok (batches : list (list example)) (a : accum) :
  evaluate batches = Ok a <->
  exists rk, mapM_result example_ranks (concat batches) = Ok rk /\
             a = record_all rk accum_init.
Proof. apply foldM_batch_step_Ok. Qed.

(** ** The accumulators in closed form *)

Lemma hits_step_fold_ranks (r1 r2 : nat) (ks : list nat) : forall a : accum,
  ranks (foldl (hits_step r1 r2) a ks) = ranks a /\
  ranks_left (foldl (hits_step r1 r2) a ks) = ranks_left a /\
  ranks_right (foldl (hits_step r1 r2) a ks) = ranks_right a.
Proof.
  induction ks as [|k ks IH]; intros a; cbn [foldl]; [auto|].
  destruct (IH (hits_step r1 r2 a k)) as (-> & -> & ->). auto.
Qed.

Lemma append_at_lookup (i k : nat) (x : Q) (lists : list (list Q)) :
  append_at i x lists !! k =
  if decide (k = i) then (fun l => l ++ [x]) <$> lists !! k else lists !! k.
Proof.
  unfold append_at. destruct (decide (k = i)) as [->|Hne].
  - apply list_lookup_alter_eq.
  - apply list_lookup_alter_ne. congruence.
Qed.

(** One round of the loop over the levels appends one entry to every
    level it visits and leaves the other levels alone. *)
Lemma hits_step_fold_hits (r1 r2 : nat) (ks : list nat) :
  NoDup ks -> forall (a : accum) (k : nat),
  let a' := foldl (hits_step r1 r2) a ks in
  (hits a' !! k =
     if decide (k ∈ ks)
     then (fun l => l ++ [hit r1 k; hit r2 k]) <$> hits a !! k
     else hits a !! k) /\
  (hits_left a' !! k =
     if decide (k ∈ ks)
     then (fun l => l ++ [hit r1 k]) <$> hits_left a !! k
     else hits_left a !! k) /\
  (hits_right a' !! k =
     if decide (k ∈ ks)
     then (fun l => l ++ [hit r2 k]) <$> hits_right a !! k
     else hits_right a !! k).
Proof.
  induction ks as [|i ks IH]; intros Hnd a k; cbn [foldl].
  - rewrite decide_False by apply not_elem_of_nil. auto.
  - apply NoDup_cons in Hnd as [Hi Hnd].
    destruct (IH Hnd (hits_step r1 r2 a i) k) as (-> & -> & ->).
    cbn [hits_step hits hits_left hits_right].
    rewrite !append_at_lookup.
    pose proof (elem_of_cons ks k i) as Hcons.
    destruct (decide (k = i)) as [->|Hne];
      destruct (decide (_ ∈ ks)); destruct (decide (_ ∈ i :: ks));
      try (exfalso; tauto);
      destruct (hits a !! _), (hits_left a !! _), (hits_right a !! _);
      cbn; rewrite <- ?(assoc_L (++)); auto.
Qed.

Lemma record_ranks_ranks (r1 r2 : nat) (a : accum) :
  ranks (record_ranks r1 r2 a) = ranks a ++ [r1 + 1; r2 + 1] /\
  ranks_left (record_ranks r1 r2 a) = ranks_left a ++ [r1 + 1] /\
  ranks_right (record_ranks r1 r2 a) = ranks_right a ++ [r2 + 1].
Proof.
  unfold record_ranks.
  match goal with |- context [foldl _ ?a0 ?ks] =>
    destruct (hits_step_fold_ranks r1 r2 ks a0) as (-> & -> & ->) end.
  cbn [ranks ranks_left ranks_right]. rewrite <- (assoc_L (++)). auto.
Qed.

Lemma record_ranks_hits (r1 r2 : nat) (a : accum) (k : nat) :
  k < 10 ->
  hits (record_ranks r1 r2 a) !! k =
    ((fun l => l ++ [hit r1 k; hit r2 k]) <$> hits a !! k) /\
  hits_left (record_ranks r1 r2 a) !! k =
    ((fun l => l ++ [hit r1 k]) <$> hits_left a !! k) /\
  hits_right (record_ranks r1 r2 a) !! k =
    ((fun l => l ++ [hit r2 k]) <$> hits_right a !! k).
Proof.
  intros Hk. unfold record_ranks.
  match goal with |- context [foldl _ ?a0 ?ks] =>
    destruct (hits_step_fold_hits r1 r2 ks (NoDup_seq 0 10) a0 k)
      as (-> & -> & ->) end.
  rewrite !decide_True by (apply elem_of_seq; lia).
  cbn [hits hits_left hits_right]. auto.
Qed.

Lemma record_all_ranks (rk : list (nat * nat)) : forall a : accum,
  ranks (record_all rk a) = ranks a ++ both (fun r => r + 1) rk /\
  ranks_left (record_all rk a) = ranks_left a ++ ((fun r => fst r + 1) <$> rk) /\
  ranks_right (record_all rk a) = ranks_right a ++ ((fun r => snd r + 1) <$> rk).
Proof.
  unfold record_all.
  induction rk as [|r rk IH]; intros a; cbn [foldl both fmap list_fmap].
  - rewrite !app_nil_r. auto.
  - destruct (IH (record_ranks (fst r) (snd r) a)) as (-> & -> & ->).
    destruct (record_ranks_ranks (fst r) (snd r) a) as (-> & -> & ->).
    rewrite <- !(assoc_L (++)). auto.
Qed.

Lemma record_all_hits (rk : list (nat * nat)) (k : nat) :
  k < 10 -> forall a : accum,
  hits (record_all rk a) !! k =
    ((fun l => l ++ both (fun r => hit r k) rk) <$> hits a !! k) /\
  hits_left (record_all rk a) !! k =
    ((fun l => l ++ ((fun r => hit (fst r) k) <$> rk)) <$> hits_left a !! k) /\
  hits_right (record_all rk a) !! k =
    ((fun l => l ++ ((fun r => hit (snd r) k) <$> rk)) <$> hits_right a !! k).
Proof.
  intros Hk. unfold record_all.
  induction rk as [|r rk IH]; intros a; cbn [foldl both fmap list_fmap].
  - destruct (hits a !! k), (hits_left a !! k), (hits_right a !! k);
      cbn; rewrite ?app_nil_r; auto.
  - destruct (IH (record_ranks (fst r) (snd r) a)) as (-> & -> & ->).
    destruct (record_ranks_hits (fst r) (snd r) a k Hk) as (-> & -> & ->).
    destruct (hits a !! k), (hits_left a !! k), (hits_right a !! k);
      cbn; rewrite <- ?(assoc_L (++)); auto.
Qed.

Lemma length_both {A : Type} (f : nat -> A) (rk : list (nat * nat)) :
  length (both f rk) = 2 * length rk.
Proof. induction rk as [|r rk IH]; cbn [both length]; lia. Qed.

(** ** Sums and means *)

Lemma np_mean_Some (l : list Q) :
  l <> [] -> np_mean l = Some (Qsum l / Qlen l)%Q.
Proof. destruct l; [congruence | reflexivity]. Qed.

Lemma Qlen_pos {A : Type} (l : list A) : l <> [] -> (0 < Qlen l)%Q.
Proof.
  intros Hne. destruct l as [|x l]; [congruence|].
  unfold Qlen, Qlt. cbn [length Qnum Qden inject_Z]. lia.
Qed.

Lemma Qlen_cons {A : Type} (x : A) (l : list A) :
  (Qlen (x :: l) == Qlen l + 1)%Q.
Proof.
  unfold Qlen. cbn [length]. rewrite Nat2Z.inj_succ, <- Z.add_1_r.
  by rewrite inject_Z_plus.
Qed.

Lemma Qlen_both {A : Type} (f : nat -> A) (rk : list (nat * nat)) :
  (Qlen (both f rk) == 2 * Qlen rk)%Q.
Proof.
  unfold Qlen. rewrite length_both, Nat2Z.inj_mul, inject_Z_mult.
  reflexivity.
Qed.

Lemma Qlen_fmap {A B : Type} (f : A -> B) (l : list A) :
  Qlen (f <$> l) = Qlen l.
Proof. unfold Qlen. by rewrite length_fmap. Qed.

Lemma Qsum_both (f : nat -> Q) (rk : list (nat * nat)) :
  (Qsum (both f rk) ==
   Qsum ((fun r => f (fst r)) <$> rk) + Qsum ((fun r => f (snd r)) <$> rk))%Q.
Proof.
  induction rk as [|r rk IH]; cbn [both Qsum fmap list_fmap].
  - lra.
  - rewrite IH. lra.
Qed.

Lemma Qsum_fmap_le {A : Type} (f g : A -> Q) (l : list A) :
  (forall x, f x <= g x)%Q -> (Qsum (f <$> l) <= Qsum (g <$> l))%Q.
Proof.
  intros Hfg. induction l as [|x l IH]; cbn [Qsum fmap list_fmap].
  - lra.
  - specialize (Hfg x). lra.
Qed.

Lemma Qsum_both_le (f g : nat -> Q) (rk : list (nat * nat)) :
  (forall r, f r <= g r)%Q -> (Qsum (both f rk) <= Qsum (both g rk))%Q.
Proof.
  intros Hfg. rewrite !Qsum_both.
  pose proof (Qsum_fmap_le (fun r => f (fst r)) (fun r => g (fst r)) rk
                (fun r => Hfg (fst r))).
  pose proof (Qsum_fmap_le (fun r => f (snd r)) (fun r => g (snd r)) rk
                (fun r => Hfg (snd r))).
  lra.
Qed.

Lemma Qdiv_le_mono (x y n : Q) : (0 < n -> x <= y -> x / n <= y / n)%Q.
Proof.
  intros Hn Hxy. unfold Qdiv. apply Qmult_le_compat_r; [assumption|].
  apply Qlt_le_weak, Qinv_lt_0_compat. assumption.
Qed.

(** The mean of a combined list is the average of the means of its two
    halves. *)
Lemma mean_both (f : nat -> Q) (rk : list (nat * nat)) :
  rk <> [] ->
  (Qsum (both f rk) / Qlen (both f rk) ==
   (Qsum ((fun r => f (fst r)) <$> rk) / Qlen rk +
    Qsum ((fun r => f (snd r)) <$> rk) / Qlen rk) / 2)%Q.
Proof.
  intros Hne. rewrite Qsum_both, Qlen_both.
  pose proof (Qlen_pos rk Hne). field. lra.
Qed.

Lemma hit_mono (r k : nat) : (hit r k <= hit r (S k))%Q.
Proof.
  unfold hit.
  destruct (Nat.leb_spec r k), (Nat.leb_spec r (S k)); try lra; lia.
Qed.

Lemma of_rank_pos (r : nat) : 1 <= r -> (1 <= of_rank r)%Q.
Proof.
  intros Hr. unfold of_rank, Qle. cbn [Qnum Qden inject_Z]. lia.
Qed.

Lemma reciprocal_bounds (r : nat) :
  1 <= r ->
  (0 < 1 / of_rank r)%Q /\ (1 / of_rank r <= 1)%Q /\
  ((1 / of_rank r == 1)%Q <-> r = 1).
Proof.
  intros Hr. pose proof (of_rank_pos r Hr) as Hpos.
  assert (H0 : (0 < of_rank r)%Q) by lra.
  assert (Hinv : (0 < / of_rank r)%Q) by (by apply Qinv_lt_0_compat).
  assert (Hmul : (of_rank r * / of_rank r == 1)%Q)
    by (apply Qmult_inv_r; lra).
  unfold Qdiv. rewrite Qmult_1_l.
  split; [assumption|]. split; [nra|]. split.
  - intros Heq. rewrite Heq, Qmult_1_r in Hmul.
    unfold of_rank, Qeq in Hmul. cbn [Qnum Qden inject_Z] in Hmul. lia.
  - intros ->. reflexivity.
Qed.

Lemma Qsum_reciprocals (rs : list nat) :
  Forall (fun r => 1 <= r) rs ->
  (0 <= Qsum (reciprocals rs))%Q /\
  (Qsum (reciprocals rs) <= Qlen rs)%Q /\
  ((Qsum (reciprocals rs) == Qlen rs)%Q <-> Forall (fun r => r = 1) rs).
Proof.
  unfold reciprocals.
  induction rs as [|r rs IH]; intros Hall; cbn [Qsum fmap list_fmap].
  - change (Qlen (@nil nat)) with 0%Q.
    split; [lra|]. split; [lra|]. split; [constructor | lra].
  - apply Forall_cons in Hall as [Hr Hall].
    destruct (IH Hall) as (H0 & Hle & Heq).
    destruct (reciprocal_bounds r Hr) as (Hr0 & Hr1 & Hreq).
    rewrite Qlen_cons. split; [lra|]. split; [lra|]. split.
    + intros Hsum. constructor.
      * apply Hreq. lra.
      * apply Heq. lra.
    + intros Hone. apply Forall_cons in Hone as [Hr' Hone].
      apply Hreq in Hr'. apply Heq in Hone. lra.
Qed.

(** A target and filter indices within the row give a rank within the
    row. *)
Lemma filtered_rank_total (pred : list Q) (target : nat) (filter : list nat) :
  target < length pred ->
  Forall (fun j => j < length pred) filter ->
  exists r, filtered_rank pred target filter = Ok r /\
            1 <= r /\ r <= length pred.
Proof.
  intros Ht Hall.
  destruct (filter_row_total pred target filter Ht Hall) as [row Hrow].
  pose proof Hrow as Hspec.
  apply filter_row_Ok in Hspec as (_ & _ & Hlen & _).
  destruct (position_total row target) as (k & Hk & Hlt); [lia|].
  exists (k + 1). unfold filtered_rank. rewrite Hrow. cbn [bind].
  rewrite Hk. cbn [bind]. split; [reflexivity | lia].
Qed.

(** * The claims *)

Lemma filtered_at_without (pred : list Q) (target : nat) (filter : list nat)
  (j : nat) :
  filtered_at pred target (without target filter) j =
  filtered_at pred target filter j.
Proof.
  unfold filtered_at, without.
  destruct (decide (j = target)) as [->|Hne]; [reflexivity|].
  destruct (decide (j ∈ filter)) as [Hin|Hnin].
  - rewrite decide_True; [reflexivity|]. by apply list_elem_of_filter.
  - rewrite decide_False; [reflexivity|].
    intros Hin. apply list_elem_of_filter in Hin as [_ Hin]. contradiction.
Qed.

Lemma without_in_range (n target : nat) (filter : list nat) :
  Forall (fun j => j < n) filter ->
  Forall (fun j => j < n) (without target filter).
Proof.
  rewrite !Forall_forall. intros Hall j Hin.
  apply list_elem_of_filter in Hin as [_ Hin]. by apply Hall.
Qed.

(** C1. When the target is among its own filter indices, the filter step
    succeeds on in-range input and leaves the target's score as it was:
    the row it produces is the row obtained by the same step with the
    target taken out of the filter, and also the row obtained by only
    zeroing the filter without the target; so all three give the same
    rank. *)
Theorem target_in_filter_preserved (pred : list Q) (target : nat)
  (filter : list nat) :
  target ∈ filter ->
  target < length pred ->
  Forall (fun j => j < length pred) filter ->
  exists row,
    filter_row pred target filter = Ok row /\
    row !! target = pred !! target /\
    filter_row pred target (without target filter) = Ok row /\
    index_fill pred (without target filter) 0%Q = Ok row /\
    filtered_rank pred target filter =
      filtered_rank pred target (without target filter) /\
    filtered_rank pred target filter =
      zeroed_rank pred target (without target filter).
Proof.
  intros _ Ht Hall.
  destruct (filter_row_total pred target filter Ht Hall) as [row Hrow].
  exists row. pose proof Hrow as Hspec.
  apply filter_row_Ok in Hspec as (_ & _ & Hlen & Hlook).
  assert (Hrow' : filter_row pred target (without target filter) = Ok row).
  { apply filter_row_Ok. repeat split; try assumption.
    - by apply without_in_range.
    - intros j. rewrite filtered_at_without. apply Hlook. }
  assert (Hz : index_fill pred (without target filter) 0%Q = Ok row).
  { destruct (index_fill_total (without target filter) pred 0%Q)
      as [row2 Hrow2]; [by apply without_in_range|].
    rewrite Hrow2. f_equal. apply list_eq. intros j.
    rewrite (index_fill_lookup _ _ _ _ j Hrow2), (Hlook j).
    unfold filtered_at, without.
    destruct (decide (j = target)) as [->|Hne].
    - rewrite decide_False; [reflexivity|].
      intros Hin. apply list_elem_of_filter in Hin as [Hneq _]. congruence.
    - destruct (decide (j ∈ filter)) as [Hin|Hnin].
      + rewrite decide_True; [reflexivity|]. by apply list_elem_of_filter.
      + rewrite decide_False; [reflexivity|].
        intros Hin. apply list_elem_of_filter in Hin as [_ Hin].
        contradiction. }
  split; [assumption|]. split.
  { rewrite (Hlook target). unfold filtered_at. by rewrite decide_True. }
  split; [assumption|]. split; [assumption|].
  unfold filtered_rank, zeroed_rank. rewrite Hrow, Hrow', Hz. by split.
Qed.

Lemma target_in_filter_preserved_witness :
  exists row,
    filter_row scores5 1 [1; 3] = Ok row /\
    row !! 1 = scores5 !! 1 /\
    filter_row scores5 1 (without 1 [1; 3]) = Ok row /\
    index_fill scores5 (without 1 [1; 3]) 0%Q = Ok row /\
    filtered_rank scores5 1 [1; 3] = filtered_rank scores5 1 (without 1 [1; 3]) /\
    filtered_rank scores5 1 [1; 3] = zeroed_rank scores5 1 (without 1 [1; 3]).
Proof.
  apply (target_in_filter_preserved scores5 1 [1; 3]).
  - apply elem_of_cons. by left.
  - cbn. lia.
  - repeat constructor; cbn; lia.
Defined.

(** C5. For a target and filter indices within the row, the filtered rank
    is computed and lies between 1 and the number of entities. *)
Theorem filtered_rank_bounds (pred : list Q) (target : nat)
  (filter : list nat) :
  target < length pred ->
  Forall (fun j => j < length pred) filter ->
  exists r, filtered_rank pred target filter = Ok r /\
            1 <= r /\ r <= length pred.
Proof.
  intros Ht Hall.
  destruct (filter_row_total pred target filter Ht Hall) as [row Hrow].
  pose proof Hrow as Hspec.
  apply filter_row_Ok in Hspec as (_ & _ & Hlen & _).
  destruct (position_total row target) as (k & Hk & Hlt); [lia|].
  exists (k + 1). unfold filtered_rank. rewrite Hrow. cbn [bind].
  rewrite Hk. cbn [bind]. split; [reflexivity | lia].
Qed.

Lemma filtered_rank_bounds_witness :
  exists r, filtered_rank scores5 4 [1] = Ok r /\ 1 <= r /\ r <= length scores5.
Proof.
  apply (filtered_rank_bounds scores5 4 [1]).
  - cbn. lia.
  - repeat constructor; cbn; lia.
Defined.

(** C8. On in-range input the filter step succeeds, and applying it again
    to its own result, with the same target and filter, returns that
    result unchanged; the rank computed from the twice-filtered row is the
    rank computed from the once-filtered row. *)
Theorem filter_row_idempotent (pred : list Q) (target : nat)
  (filter : list nat) :
  target < length pred ->
  Forall (fun j => j < length pred) filter ->
  exists row,
    filter_row pred target filter = Ok row /\
    filter_row row target filter = Ok row /\
    filtered_rank row target filter = filtered_rank pred target filter.
Proof.
  intros Ht Hall.
  destruct (filter_row_total pred target filter Ht Hall) as [row Hrow].
  exists row. pose proof Hrow as Hspec.
  apply filter_row_Ok in Hspec as (_ & _ & Hlen & Hlook).
  assert (Hagain : filter_row row target filter = Ok row).
  { apply filter_row_Ok. rewrite Hlen. repeat split; try assumption.
    intros j. rewrite (Hlook j). unfold filtered_at.
    destruct (decide (j = target)) as [->|Hne].
    - rewrite (Hlook target). unfold filtered_at. by rewrite decide_True.
    - destruct (decide (j ∈ filter)); [reflexivity|].
      rewrite (Hlook j). unfold filtered_at.
      rewrite decide_False by assumption. by rewrite decide_False. }
  split; [assumption|]. split; [assumption|].
  unfold filtered_rank. by rewrite Hrow, Hagain.
Qed.

Lemma filter_row_idempotent_witness :
  exists row,
    filter_row scores5 1 [1; 3] = Ok row /\
    filter_row row 1 [1; 3] = Ok row /\
    filtered_rank row 1 [1; 3] = filtered_rank scores5 1 [1; 3].
Proof.
  apply (filter_row_idempotent scores5 1 [1; 3]).
  - cbn. lia.
  - repeat constructor; cbn; lia.
Defined.

(** C2. The filter is used as a list of indices: the zeroing assignment
    writes [0.0] at every index that occurs in it, and in the row that is
    sorted every filter index other than the target reads [0.0]; in
    particular index 0 does when the filter is padded with zeros and
    entity 0 is not the target.  On the row [0.9, 0.5, 0.1] with target 1,
    the all-padding filter [0, 0] moves entity 0 from the first place of
    the order to the last and the target from rank 2 to rank 1, compared
    with the empty filter. *)
Theorem filter_is_index_list (pred : list Q) (target : nat)
  (filter : list nat) (row : list Q) :
  filter_row pred target filter = Ok row ->
  (exists zeroed, index_fill pred filter 0%Q = Ok zeroed /\
                  forall j, j ∈ filter -> zeroed !! j = Some 0%Q) /\
  (forall j, j ∈ filter -> j <> target -> row !! j = Some 0%Q) /\
  (0 ∈ filter -> target <> 0 -> row !! 0 = Some 0%Q) /\
  (filter_row padded_row 1 [0; 0] = Ok [0; 5#10; 1#10]%Q /\
   filter_row padded_row 1 [] = Ok padded_row /\
   position [0; 5#10; 1#10]%Q 0 = Ok 2 /\
   position padded_row 0 = Ok 0 /\
   filtered_rank padded_row 1 [0; 0] = Ok 1 /\
   filtered_rank padded_row 1 [] = Ok 2).
Proof.
  intros Hrow.
  assert (Hother : forall j, j ∈ filter -> j <> target -> row !! j = Some 0%Q).
  { intros j Hin Hne.
    apply filter_row_Ok in Hrow as (_ & _ & _ & Hlook).
    rewrite (Hlook j). unfold filtered_at.
    rewrite decide_False by assumption. by rewrite decide_True. }
  split.
  { unfold filter_row in Hrow.
    apply bind_Ok in Hrow as (tv & _ & Hrow).
    apply bind_Ok in Hrow as (zeroed & Hz & _).
    exists zeroed. split; [assumption|]. intros j Hin.
    rewrite (index_fill_lookup _ _ _ _ j Hz). by rewrite decide_True. }
  split; [assumption|].
  split; [intros Hin Hne; apply Hother; [assumption | congruence]|].
  repeat split; vm_compute; reflexivity.
Qed.

Lemma filter_is_index_list_witness :
  (exists zeroed, index_fill padded_row [1; 0; 0] 0%Q = Ok zeroed /\
                  forall j, j ∈ [1; 0; 0] -> zeroed !! j = Some 0%Q) /\
  (forall j, j ∈ [1; 0; 0] -> j <> 1 -> [0; 5#10; 1#10]%Q !! j = Some 0%Q) /\
  (0 ∈ [1; 0; 0] -> 1 <> 0 -> [0; 5#10; 1#10]%Q !! 0 = Some 0%Q) /\
  (filter_row padded_row 1 [0; 0] = Ok [0; 5#10; 1#10]%Q /\
   filter_row padded_row 1 [] = Ok padded_row /\
   position [0; 5#10; 1#10]%Q 0 = Ok 2 /\
   position padded_row 0 = Ok 0 /\
   filtered_rank padded_row 1 [0; 0] = Ok 1 /\
   filtered_rank padded_row 1 [] = Ok 2).
Proof.
  apply (filter_is_index_list padded_row 1 [1; 0; 0] [0; 5#10; 1#10]%Q).
  reflexivity.
Defined.

(** C9. On the scores [0.1, 0.9, 0.3, 0.05, 0.2]: target 1 with an empty
    filter has rank 1, hits@1 = 1.0 and reciprocal rank 1.0; target 4 with
    filter [1] is ranked after entity 2 in the order 2, 4, 0, 3, 1, so its
    rank is 2, hits@1 = 0.0 and hits@2 = 1.0.  The evaluation pass over
    this one example reports the same numbers. *)
Theorem concrete_scenarios :
  length scores5 = 5 /\
  filtered_rank scores5 1 [] = Ok 1 /\
  hit 0 0 = 1%Q /\
  reciprocals [1] = [1%Q] /\
  filter_row scores5 4 [1] = Ok [1#10; 0; 3#10; 5#100; 2#10]%Q /\
  argsort [1#10; 0; 3#10; 5#100; 2#10]%Q = [2; 4; 0; 3; 1] /\
  filtered_rank scores5 4 [1] = Ok 2 /\
  hit 1 0 = 0%Q /\
  hit 1 1 = 1%Q /\
  exists m mrr,
    ranking_and_hits_this [[scenario]] = Ok (m, mrr) /\
    Mean_rank_left m = Some 1%Q /\
    Hits_left m !! 0 = Some (Some 1%Q) /\
    Mean_reciprocal_rank_left m = Some 1%Q /\
    Mean_rank_right m = Some 2%Q /\
    Hits_right m !! 0 = Some (Some 0%Q) /\
    Hits_right m !! 1 = Some (Some 1%Q).
Proof.
  repeat (split; [vm_compute; reflexivity|]).
  eexists _, _. split; [vm_compute; reflexivity|].
  repeat split.
Qed.

(** ** The pass as a whole *)

Lemma example_ranks_total (ex : example) :
  wf_example ex -> exists r, example_ranks ex = Ok r.
Proof.
  intros (H2 & H1 & Hf1 & Hf2).
  destruct (filtered_rank_total _ _ _ H2 Hf1) as (r1 & Hr1 & Hge1 & _).
  destruct (filtered_rank_total _ _ _ H1 Hf2) as (r2 & Hr2 & Hge2 & _).
  exists (r1 - 1, r2 - 1). apply example_ranks_Ok.
  replace (r1 - 1 + 1) with r1 by lia. replace (r2 - 1 + 1) with r2 by lia.
  by split.
Qed.

Lemma mapM_result_total {A B : Type} (f : A -> result B) (P : A -> Prop)
  (xs : list A) :
  (forall x, P x -> exists y, f x = Ok y) ->
  Forall P xs -> exists ys, mapM_result f xs = Ok ys.
Proof.
  intros Hf. induction xs as [|x xs IH]; intros Hall; cbn [mapM_result].
  - by exists [].
  - apply Forall_cons in Hall as [Hx Hall].
    destruct (Hf x Hx) as [y ->]. destruct (IH Hall) as [ys ->].
    by exists (y :: ys).
Qed.

Lemma mapM_result_Forall2 {A B : Type} (f : A -> result B) (xs : list A) :
  forall ys, mapM_result f xs = Ok ys ->
             Forall2 (fun x y => f x = Ok y) xs ys.
Proof.
  induction xs as [|x xs IH]; intros ys H; cbn [mapM_result] in H.
  - injection H as <-. constructor.
  - apply bind_Ok in H as (y & Hy & H).
    apply bind_Ok in H as (ys' & Hys & [= <-]).
    constructor; [assumption | by apply IH].
Qed.

Lemma fmap_both {A B : Type} (g : A -> B) (f : nat -> A)
  (rk : list (nat * nat)) :
  g <$> both f rk = both (fun r => g (f r)) rk.
Proof.
  induction rk as [|r rk IH]; cbn [both fmap list_fmap]; [reflexivity|].
  f_equal. f_equal. exact IH.
Qed.

Lemma both_nil_inv {A : Type} (f : nat -> A) (rk : list (nat * nat)) :
  rk <> [] -> both f rk <> [].
Proof. destruct rk; [congruence | discriminate]. Qed.

Lemma fmap_nil_inv' {A B : Type} (f : A -> B) (l : list A) :
  l <> [] -> f <$> l <> [].
Proof. destruct l; [congruence | discriminate]. Qed.

(** The accumulators after recording [rk] from scratch. *)
Lemma accum_closed (rk : list (nat * nat)) :
  let a := record_all rk accum_init in
  ranks a = both (fun r => r + 1) rk /\
  ranks_left a = (fun r => fst r + 1) <$> rk /\
  ranks_right a = (fun r => snd r + 1) <$> rk /\
  forall k, k < 10 ->
    hits a !! k = Some (both (fun r => hit r k) rk) /\
    hits_left a !! k = Some ((fun r => hit (fst r) k) <$> rk) /\
    hits_right a !! k = Some ((fun r => hit (snd r) k) <$> rk).
Proof.
  intros a. subst a.
  destruct (record_all_ranks rk accum_init) as (-> & -> & ->).
  split; [reflexivity|]. split; [reflexivity|]. split; [reflexivity|].
  intros k Hk.
  destruct (record_all_hits rk k Hk accum_init) as (-> & -> & ->).
  cbn [accum_init hits hits_left hits_right].
  rewrite !lookup_replicate_2 by assumption. auto.
Qed.

Lemma np_mean_both (f : nat -> Q) (rk : list (nat * nat)) :
  rk <> [] ->
  averaged (np_mean (both f rk))
           (np_mean ((fun r => f (fst r)) <$> rk))
           (np_mean ((fun r => f (snd r)) <$> rk)).
Proof.
  intros Hne. unfold averaged.
  rewrite !np_mean_Some by auto using both_nil_inv, fmap_nil_inv'.
  eexists _, _, _. repeat split. rewrite !Qlen_fmap. by apply mean_both.
Qed.

Lemma np_mean_both_le (f g : nat -> Q) (rk : list (nat * nat)) :
  rk <> [] -> (forall r, f r <= g r)%Q ->
  exists x y, np_mean (both f rk) = Some x /\ np_mean (both g rk) = Some y /\
              (x <= y)%Q.
Proof.
  intros Hne Hfg.
  rewrite !np_mean_Some by auto using both_nil_inv.
  eexists _, _. repeat split. rewrite !Qlen_both.
  apply Qdiv_le_mono; [|by apply Qsum_both_le].
  pose proof (Qlen_pos rk Hne). lra.
Qed.

Lemma np_mean_fmap_le {A : Type} (f g : A -> Q) (l : list A) :
  l <> [] -> (forall x, f x <= g x)%Q ->
  exists x y, np_mean (f <$> l) = Some x /\ np_mean (g <$> l) = Some y /\
              (x <= y)%Q.
Proof.
  intros Hne Hfg.
  rewrite !np_mean_Some by auto using fmap_nil_inv'.
  eexists _, _. repeat split. rewrite !Qlen_fmap.
  apply Qdiv_le_mono; [by apply Qlen_pos | by apply Qsum_fmap_le].
Qed.

(** What a successful pass has accumulated. *)
Lemma ranking_and_hits_this_Ok (batches : list (list example)) (m : metrics)
  (mrr : option Q) :
  ranking_and_hits_this batches = Ok (m, mrr) <->
  exists rk, mapM_result example_ranks (concat batches) = Ok rk /\
             m = report (record_all rk accum_init) /\
             mrr = np_mean (reciprocals (ranks (record_all rk accum_init))).
Proof.
  unfold ranking_and_hits_this. split.
  - intros H. apply bind_Ok in H as (a & Ha & [= <- <-]).
    apply evaluate_Ok in Ha as (rk & Hrk & ->). by exists rk.
  - intros (rk & Hrk & -> & ->). apply bind_Ok.
    exists (record_all rk accum_init). split; [|reflexivity].
    apply evaluate_Ok. by exists rk.
Qed.

Lemma mapM_result_nonempty {A B : Type} (f : A -> result B) (xs : list A)
  (ys : list B) :
  mapM_result f xs = Ok ys -> xs <> [] -> ys <> [].
Proof.
  intros H Hne Hys. subst ys. apply mapM_result_Forall2 in H.
  apply Forall2_nil_inv_r in H. contradiction.
Qed.

Lemma Qsum_foldr (l : list Q) : Qsum l = foldr Qplus 0%Q l.
Proof. induction l as [|x l IH]; cbn [Qsum foldr]; by rewrite ?IH. Qed.

(** The mean of the reciprocals, written out. *)
Lemma np_mean_reciprocals (rs : list nat) :
  rs <> [] ->
  np_mean (reciprocals rs) =
    Some (foldr Qplus 0 ((fun r => 1 / inject_Z (Z.of_nat r)) <$> rs) /
          inject_Z (Z.of_nat (length rs)))%Q.
Proof.
  intros Hne. unfold reciprocals. rewrite np_mean_Some by (by apply fmap_nil_inv').
  rewrite Qsum_foldr. unfold Qlen. by rewrite length_fmap.
Qed.

(** C3. A pass over at least one example, all of them within range,
    succeeds; its combined rank list holds, for every example in order,
    the filtered rank of the left query and then that of the right query,
    and the value returned is the sum of 1 / rank over that list divided
    by the length of the list, which is also the reported combined mean
    reciprocal rank. *)
Theorem returns_combined_mrr (batches : list (list example)) :
  concat batches <> [] ->
  Forall wf_example (concat batches) ->
  exists rk a,
    Forall2 (fun ex r =>
               filtered_rank (pred1 ex) (e2 ex) (e2_multi1 ex) = Ok (fst r + 1) /\
               filtered_rank (pred2 ex) (e1 ex) (e2_multi2 ex) = Ok (snd r + 1))
            (concat batches) rk /\
    evaluate batches = Ok a /\
    ranks a = both (fun r => r + 1) rk /\
    length (ranks a) = 2 * length (concat batches) /\
    ranking_and_hits_this batches =
      Ok (report a,
          Some (foldr Qplus 0
                  ((fun r => 1 / inject_Z (Z.of_nat r)) <$> ranks a) /
                inject_Z (Z.of_nat (length (ranks a))))%Q) /\
    Mean_reciprocal_rank (report a) =
      Some (foldr Qplus 0
                  ((fun r => 1 / inject_Z (Z.of_nat r)) <$> ranks a) /
                inject_Z (Z.of_nat (length (ranks a))))%Q.
Proof.
  intros Hne Hwf.
  destruct (mapM_result_total example_ranks wf_example (concat batches)
              example_ranks_total Hwf) as [rk Hrk].
  exists rk, (record_all rk accum_init).
  pose proof (mapM_result_nonempty _ _ _ Hrk Hne) as Hrkne.
  destruct (accum_closed rk) as (Hranks & _).
  pose proof (np_mean_reciprocals (ranks (record_all rk accum_init))) as Hmean.
  rewrite <- Hmean by (rewrite Hranks; by apply both_nil_inv).
  split.
  { apply mapM_result_Forall2 in Hrk.
    eapply Forall2_impl; [exact Hrk|].
    intros ex [r1 r2] Hr. by apply example_ranks_Ok. }
  split; [apply evaluate_Ok; by exists rk|].
  split; [assumption|].
  split.
  { rewrite Hranks, length_both. f_equal.
    apply mapM_result_Forall2 in Hrk. symmetry.
    by eapply Forall2_length. }
  split; [|reflexivity].
  apply ranking_and_hits_this_Ok. by exists rk.
Qed.

Lemma scenario_wf : Forall wf_example (concat [[scenario]]).
Proof.
  repeat constructor; cbn; lia.
Defined.

Lemma returns_combined_mrr_witness :
  exists rk a,
    Forall2 (fun ex r =>
               filtered_rank (pred1 ex) (e2 ex) (e2_multi1 ex) = Ok (fst r + 1) /\
               filtered_rank (pred2 ex) (e1 ex) (e2_multi2 ex) = Ok (snd r + 1))
            (concat [[scenario]]) rk /\
    evaluate [[scenario]] = Ok a /\
    ranks a = both (fun r => r + 1) rk /\
    length (ranks a) = 2 * length (concat [[scenario]]) /\
    ranking_and_hits_this [[scenario]] =
      Ok (report a,
          Some (foldr Qplus 0
                  ((fun r => 1 / inject_Z (Z.of_nat r)) <$> ranks a) /
                inject_Z (Z.of_nat (length (ranks a))))%Q) /\
    Mean_reciprocal_rank (report a) =
      Some (foldr Qplus 0
                  ((fun r => 1 / inject_Z (Z.of_nat r)) <$> ranks a) /
                inject_Z (Z.of_nat (length (ranks a))))%Q.
Proof.
  apply (returns_combined_mrr [[scenario]]).
  - discriminate.
  - exact scenario_wf.
Defined.

(** C6. In the metrics of a pass over at least one example, the hit rates
    do not decrease from one level to the next, from hits@1 to hits@10,
    in the combined list and in the left and the right list. *)
Theorem hits_monotone (batches : list (list example)) (m : metrics)
  (mrr : option Q) :
  ranking_and_hits_this batches = Ok (m, mrr) ->
  concat batches <> [] ->
  forall k, k < 9 ->
    increasing_at (Hits m) k /\
    increasing_at (Hits_left m) k /\
    increasing_at (Hits_right m) k.
Proof.
  intros Hrun Hne k Hk.
  apply ranking_and_hits_this_Ok in Hrun as (rk & Hrk & -> & _).
  pose proof (mapM_result_nonempty _ _ _ Hrk Hne) as Hrkne.
  destruct (accum_closed rk) as (_ & _ & _ & Hhits).
  destruct (Hhits k ltac:(lia)) as (Hk0 & Hl0 & Hr0).
  destruct (Hhits (S k) ltac:(lia)) as (Hk1 & Hl1 & Hr1).
  unfold increasing_at. cbn [report Hits Hits_left Hits_right].
  rewrite !list_lookup_fmap, Hk0, Hk1, Hl0, Hl1, Hr0, Hr1.
  cbn [fmap option_fmap option_map].
  split; [|split].
  - destruct (np_mean_both_le (fun r => hit r k) (fun r => hit r (S k)) rk Hrkne)
      as (x & y & -> & -> & Hxy); [intros r; apply hit_mono|].
    by exists x, y.
  - destruct (np_mean_fmap_le (fun r => hit (fst r) k)
                (fun r => hit (fst r) (S k)) rk Hrkne)
      as (x & y & -> & -> & Hxy); [intros r; apply hit_mono|].
    by exists x, y.
  - destruct (np_mean_fmap_le (fun r => hit (snd r) k)
                (fun r => hit (snd r) (S k)) rk Hrkne)
      as (x & y & -> & -> & Hxy); [intros r; apply hit_mono|].
    by exists x, y.
Qed.

Lemma hits_monotone_witness :
  increasing_at (Hits scenario_metrics) 0 /\
  increasing_at (Hits_left scenario_metrics) 0 /\
  increasing_at (Hits_right scenario_metrics) 0.
Proof.
  apply (hits_monotone [[scenario]] scenario_metrics scenario_mrr).
  - vm_compute. reflexivity.
  - discriminate.
  - lia.
Defined.

(** C10, as stated, fails on the float64 numbers that [np.mean] returns:
    over [five_examples] the combined hits@1 is 3/10 rounded, 0.3, while
    the average of the left 1/5 and the right 2/5, each rounded, is
    0.30000000000000004. *)
Lemma combined_hits_differ_in_float64 :
  exists a h hl hr x l r,
    evaluate [five_examples] = Ok a /\
    hits a !! 0 = Some h /\
    hits_left a !! 0 = Some hl /\
    hits_right a !! 0 = Some hr /\
    np_mean64 (hit64 <$> h) = Some x /\
    np_mean64 (hit64 <$> hl) = Some l /\
    np_mean64 (hit64 <$> hr) = Some r /\
    PrimFloat.eqb x (PrimFloat.div (PrimFloat.add l r) PrimFloat.two) = false.
Proof.
  eexists _, _, _, _, _, _, _.
  repeat (split; [vm_compute; reflexivity|]).
  vm_compute. reflexivity.
Qed.

(** C10, amended.  In exact arithmetic, that is before any float64
    rounding, the metrics of a pass over at least one example satisfy:
    the combined mean rank, the combined mean reciprocal rank and every
    combined hit rate are the unweighted average of their left and right
    counterparts, because every example appends one left and one right
    entry to each combined list. *)
Theorem combined_is_average (batches : list (list example)) (m : metrics)
  (mrr : option Q) :
  ranking_and_hits_this batches = Ok (m, mrr) ->
  concat batches <> [] ->
  averaged (Mean_rank m) (Mean_rank_left m) (Mean_rank_right m) /\
  averaged (Mean_reciprocal_rank m) (Mean_reciprocal_rank_left m)
           (Mean_reciprocal_rank_right m) /\
  forall k, k < 10 ->
    exists x l r, Hits m !! k = Some x /\ Hits_left m !! k = Some l /\
                  Hits_right m !! k = Some r /\ averaged x l r.
Proof.
  intros Hrun Hne.
  apply ranking_and_hits_this_Ok in Hrun as (rk & Hrk & -> & _).
  pose proof (mapM_result_nonempty _ _ _ Hrk Hne) as Hrkne.
  destruct (accum_closed rk) as (Hranks & Hleft & Hright & Hhits).
  cbn [report Mean_rank Mean_rank_left Mean_rank_right Mean_reciprocal_rank
       Mean_reciprocal_rank_left Mean_reciprocal_rank_right
       Hits Hits_left Hits_right].
  unfold reciprocals. rewrite Hranks, Hleft, Hright.
  rewrite !fmap_both, <- !list_fmap_compose.
  split; [|split].
  - apply (np_mean_both (fun r => of_rank (r + 1)) rk Hrkne).
  - apply (np_mean_both (fun r => (1 / of_rank (r + 1))%Q) rk Hrkne).
  - intros k Hk. destruct (Hhits k Hk) as (Hk0 & Hl0 & Hr0).
    rewrite !list_lookup_fmap, Hk0, Hl0, Hr0.
    cbn [fmap option_fmap option_map].
    eexists _, _, _. repeat split.
    apply (np_mean_both (fun r => hit r k) rk Hrkne).
Qed.

Lemma combined_is_average_witness :
  averaged (Mean_rank scenario_metrics) (Mean_rank_left scenario_metrics)
           (Mean_rank_right scenario_metrics) /\
  averaged (Mean_reciprocal_rank scenario_metrics)
           (Mean_reciprocal_rank_left scenario_metrics)
           (Mean_reciprocal_rank_right scenario_metrics) /\
  forall k, k < 10 ->
    exists x l r, Hits scenario_metrics !! k = Some x /\
                  Hits_left scenario_metrics !! k = Some l /\
                  Hits_right scenario_metrics !! k = Some r /\ averaged x l r.
Proof.
  apply (combined_is_average [[scenario]] scenario_metrics scenario_mrr).
  - vm_compute. reflexivity.
  - discriminate.
Defined.

Lemma Qsum_reciprocals_pos (rs : list nat) :
  rs <> [] -> Forall (fun r => 1 <= r) rs -> (0 < Qsum (reciprocals rs))%Q.
Proof.
  intros Hne Hall. destruct rs as [|r rs]; [congruence|].
  apply Forall_cons in Hall as [Hr Hall].
  destruct (Qsum_reciprocals rs Hall) as (H0 & _).
  destruct (reciprocal_bounds r Hr) as (Hr0 & _).
  unfold reciprocals in *. cbn [Qsum fmap list_fmap]. lra.
Qed.

(** C7. For a non-empty list of ranks that are all at least 1, the mean
    reciprocal rank is defined, greater than 0 and at most 1, and it is 1
    exactly when every rank is 1. *)
Theorem mrr_unit_interval (rs : list nat) :
  rs <> [] ->
  Forall (fun r => 1 <= r) rs ->
  exists x, np_mean (reciprocals rs) = Some x /\
            (0 < x)%Q /\ (x <= 1)%Q /\
            ((x == 1)%Q <-> Forall (fun r => r = 1) rs).
Proof.
  intros Hne Hall.
  destruct (Qsum_reciprocals rs Hall) as (_ & Hle & Heq).
  pose proof (Qsum_reciprocals_pos rs Hne Hall) as Hpos.
  pose proof (Qlen_pos rs Hne) as Hn.
  exists (Qsum (reciprocals rs) / Qlen rs)%Q. split.
  { rewrite np_mean_Some.
    - unfold reciprocals. by rewrite Qlen_fmap.
    - unfold reciprocals. by apply fmap_nil_inv'. }
  split; [apply Qlt_shift_div_l; lra|].
  split; [apply Qle_shift_div_r; lra|].
  rewrite <- Heq. split.
  - intros Hone.
    rewrite <- (Qmult_div_r (Qsum (reciprocals rs)) (Qlen rs)) by lra.
    rewrite Hone. lra.
  - intros Hsum. rewrite Hsum. field. lra.
Qed.

Lemma mrr_unit_interval_witness :
  exists x, np_mean (reciprocals [1; 2]) = Some x /\
            (0 < x)%Q /\ (x <= 1)%Q /\
            ((x == 1)%Q <-> Forall (fun r => r = 1) [1; 2]).
Proof.
  apply (mrr_unit_interval [1; 2]).
  - discriminate.
  - repeat constructor.
Defined.

(** * Further properties of the evaluator *)

(** ** The sorted order and the scores *)

#[global] Instance desc_transitive : Transitive desc.
Proof. intros a b c Hab Hbc. unfold desc in *. by eapply Qle_trans. Qed.

Lemma sort_desc_strongly_sorted (l : list (nat * Q)) :
  StronglySorted desc (sort_desc l).
Proof.
  apply (Sorted_StronglySorted desc (Transitive0 := desc_transitive)), sort_desc_sorted.
Qed.

Lemma elem_of_indexed (row : list Q) (j : nat) (x : Q) :
  (j, x) ∈ zip (seq 0 (length row)) row -> row !! j = Some x.
Proof.
  intros Hin. apply list_elem_of_lookup in Hin as [i Hi].
  apply lookup_zip_Some in Hi as [Hseq Hrow].
  apply lookup_seq in Hseq as [-> _]. exact Hrow.
Qed.

(** The sorted pairs around the place of an entity. *)
Lemma position_split (row : list Q) (t k : nat) :
  position row t = Ok k ->
  exists L1 L2 v,
    sort_desc (zip (seq 0 (length row)) row) = L1 ++ (t, v) :: L2 /\
    length L1 = k /\ row !! t = Some v.
Proof.
  unfold position, argsort. intros H.
  apply where_first_Ok in H as [Hk _].
  apply list_lookup_fmap_Some in Hk as ([t' v] & Ht & Hk).
  cbn in Ht. subst t'.
  exists (take k (sort_desc (zip (seq 0 (length row)) row))),
         (drop (S k) (sort_desc (zip (seq 0 (length row)) row))), v.
  split; [symmetry; by apply take_drop_middle|]. split.
  - apply length_take_le, Nat.lt_le_incl. by eapply lookup_lt_Some.
  - apply elem_of_indexed. rewrite <- (sort_desc_perm (zip _ row)).
    by eapply list_elem_of_lookup_2.
Qed.

Lemma length_filter_snd (P : Q -> Prop) `{!forall x, Decision (P x)}
  (l : list (nat * Q)) :
  length (filter (fun p => P (snd p)) l) = length (filter P (snd <$> l)).
Proof.
  induction l as [|p l IH]; [reflexivity|].
  cbn [fmap list_fmap]. rewrite !filter_cons.
  destruct (decide (P (snd p))); cbn [length]; by rewrite IH.
Qed.

(** Counting over the sorted pairs is counting over the row. *)
Lemma count_sorted (P : Q -> Prop) `{!forall x, Decision (P x)}
  (row : list Q) :
  length (filter (fun p => P (snd p)) (sort_desc (zip (seq 0 (length row)) row)))
  = length (filter P row).
Proof.
  rewrite (sort_desc_perm (zip (seq 0 (length row)) row)).
  rewrite length_filter_snd, snd_zip; [reflexivity|]. by rewrite length_seq.
Qed.

Lemma filter_none {A : Type} (P : A -> Prop) `{!forall x, Decision (P x)}
  (l : list A) :
  Forall (fun x => ~ P x) l -> filter P l = [].
Proof.
  induction 1 as [|x l Hx _ IH]; [reflexivity|].
  by rewrite filter_cons_False.
Qed.

Lemma filter_all {A : Type} (P : A -> Prop) `{!forall x, Decision (P x)}
  (l : list A) :
  Forall P l -> filter P l = l.
Proof.
  induction 1 as [|x l Hx _ IH]; [reflexivity|].
  rewrite filter_cons_True by assumption. by rewrite IH.
Qed.

(** The place of an entity between the two counts. *)
Lemma position_between_counts (row : list Q) (t k : nat) (v : Q) :
  position row t = Ok k ->
  row !! t = Some v ->
  count_above v row <= k /\
  k < count_at_least v row /\
  (count_at_least v row = S (count_above v row) -> k = count_above v row).
Proof.
  intros Hpos Hv.
  destruct (position_split row t k Hpos) as (L1 & L2 & v' & HL & Hlen & Hv').
  assert (v' = v) by congruence. subst v'.
  pose proof (sort_desc_strongly_sorted (zip (seq 0 (length row)) row)) as Hs.
  rewrite HL in Hs.
  apply StronglySorted_app in Hs as (Hbefore & _ & Hs2).
  apply StronglySorted_cons in Hs2 as [Hafter _].
  assert (Habove : count_above v row <= k).
  { unfold count_above.
    rewrite <- (count_sorted (fun x => (v < x)%Q) row), HL.
    rewrite filter_app, filter_cons_False by (cbn; apply Qlt_irrefl).
    rewrite (filter_none _ L2), app_nil_r.
    - rewrite <- Hlen. apply length_filter.
    - eapply Forall_impl; [exact Hafter|].
      intros p Hp. unfold desc in Hp. cbn in *. by apply Qle_not_lt. }
  assert (Hleast : k < count_at_least v row).
  { unfold count_at_least.
    rewrite <- (count_sorted (fun x => (v <= x)%Q) row), HL.
    rewrite filter_app, filter_cons_True by (cbn; apply Qle_refl).
    rewrite (filter_all _ L1), length_app; [cbn [length]; lia|].
    apply Forall_forall. intros p Hp.
    apply (Hbefore p (t, v)); [assumption | apply elem_of_cons; by left]. }
  split; [assumption|]. split; [assumption|]. lia.
Qed.

(** X1. The zero-based position of an entity in the sorted order is at
    least the number of strictly higher scores and less than the number of
    scores that are at least its own; when no other score equals its own,
    the position is exactly the number of higher scores. *)
Theorem position_counts (row : list Q) (t k : nat) (v : Q) :
  position row t = Ok k ->
  row !! t = Some v ->
  count_above v row <= k /\
  k < count_at_least v row /\
  (count_at_least v row = S (count_above v row) -> k = count_above v row).
Proof. apply position_between_counts. Qed.

Lemma position_counts_witness :
  count_above (9#10) scores5 <= 0 /\
  0 < count_at_least (9#10) scores5 /\
  (count_at_least (9#10) scores5 = S (count_above (9#10) scores5) ->
   0 = count_above (9#10) scores5).
Proof.
  apply (position_counts scores5 1 0 (9#10)); reflexivity.
Defined.

(** Higher scores come first. *)
Lemma higher_score_first (row : list Q) (i j a b : nat) (x y : Q) :
  position row i = Ok a ->
  position row j = Ok b ->
  row !! i = Some x ->
  row !! j = Some y ->
  (y < x)%Q ->
  a < b.
Proof.
  intros Hi Hj Hx Hy Hlt.
  destruct (position_split row j b Hj) as (L1 & L2 & y' & HL & Hlen & Hy').
  assert (y' = y) by congruence. subst y'.
  destruct (position_split row i a Hi) as (M1 & M2 & x' & HM & Hlen' & Hx').
  assert (x' = x) by congruence. subst x'.
  pose proof (sort_desc_strongly_sorted (zip (seq 0 (length row)) row)) as Hs.
  assert (Hlj : (M1 ++ (i, x) :: M2) !! b = Some (j, y)).
  { rewrite <- HM, HL. by apply list_lookup_middle. }
  destruct (Nat.lt_trichotomy a b) as [Hab|[Hab|Hab]]; [assumption| |].
  - exfalso. rewrite list_lookup_middle in Hlj by congruence.
    injection Hlj as _ Heq. subst y. by apply Qlt_irrefl in Hlt.
  - exfalso. rewrite lookup_app_l in Hlj by lia.
    apply list_elem_of_lookup_2 in Hlj.
    rewrite HM in Hs.
    pose proof (StronglySorted_app_1_elem_of desc _ _ (j, y) (i, x) Hs Hlj
                  ltac:(apply elem_of_cons; by left)) as Hd.
    unfold desc in Hd. cbn in Hd. by apply Qle_not_lt in Hd.
Qed.

(** X2. A strictly higher score comes strictly earlier in the sorted
    order, however equal scores are arranged. *)
Theorem position_order (row : list Q) (i j a b : nat) (x y : Q) :
  position row i = Ok a ->
  position row j = Ok b ->
  row !! i = Some x ->
  row !! j = Some y ->
  (y < x)%Q ->
  a < b.
Proof. apply higher_score_first. Qed.

Lemma position_order_witness : 0 < 1.
Proof.
  apply (position_order scores5 1 2 0 1 (9#10) (3#10)); reflexivity.
Defined.

(** ** What the filter does to the rank *)

Lemma filter_row_nil (pred : list Q) (t : nat) :
  t < length pred -> filter_row pred t [] = Ok pred.
Proof.
  intros Ht. apply filter_row_Ok. repeat split; try done.
  intros j. unfold filtered_at.
  destruct (decide (j = t)) as [->|_]; [reflexivity|].
  rewrite decide_False; [reflexivity | apply not_elem_of_nil].
Qed.

Lemma filtered_rank_Ok (pred : list Q) (t : nat) (filter : list nat) (r : nat) :
  filtered_rank pred t filter = Ok r <->
  exists row k, filter_row pred t filter = Ok row /\
                position row t = Ok k /\ r = k + 1.
Proof.
  unfold filtered_rank. split.
  - intros H. apply bind_Ok in H as (row & Hrow & H).
    apply bind_Ok in H as (k & Hk & [= <-]). by exists row, k.
  - intros (row & k & -> & Hk & ->). cbn [bind]. by rewrite Hk.
Qed.

Lemma length_filter_mono {A : Type} (P : A -> Prop)
  `{!forall x, Decision (P x)} (l' l : list A) :
  Forall2 (fun x' x => P x' -> P x) l' l ->
  length (filter P l') <= length (filter P l).
Proof.
  induction 1 as [|x' x l' l Hx _ IH]; [reflexivity|].
  rewrite !filter_cons.
  destruct (decide (P x')), (decide (P x)); cbn [length]; try lia.
  tauto.
Qed.

(** X3. When the target's score is positive and no other entity has the
    same score, filtering cannot worsen the target's rank: the filtered
    rank is at most the rank computed with an empty filter. *)
Theorem filter_improves_positive_target (pred : list Q) (t : nat)
  (filter : list nat) (v : Q) :
  pred !! t = Some v ->
  (0 < v)%Q ->
  count_at_least v pred = S (count_above v pred) ->
  Forall (fun j => j < length pred) filter ->
  exists r r0,
    filtered_rank pred t filter = Ok r /\
    filtered_rank pred t [] = Ok r0 /\
    r <= r0.
Proof.
  intros Hv Hpos Huntied Hall.
  assert (Ht : t < length pred) by (by eapply lookup_lt_Some).
  destruct (filtered_rank_total pred t filter Ht Hall) as (r & Hr & _).
  destruct (filtered_rank_total pred t [] Ht ltac:(constructor))
    as (r0 & Hr0 & _).
  exists r, r0. split; [assumption|]. split; [assumption|].
  apply filtered_rank_Ok in Hr as (row & k & Hrow & Hk & ->).
  apply filtered_rank_Ok in Hr0 as (row0 & k0 & Hrow0 & Hk0 & ->).
  rewrite filter_row_nil in Hrow0 by assumption. injection Hrow0 as <-.
  apply filter_row_Ok in Hrow as (_ & _ & Hlen & Hlook).
  assert (Hrt : row !! t = Some v).
  { rewrite (Hlook t). unfold filtered_at. by rewrite decide_True. }
  destruct (position_between_counts row t k v Hk Hrt) as (_ & Hk_lt & _).
  destruct (position_between_counts pred t k0 v Hk0 Hv) as (Hk0_ge & _ & _).
  assert (Hmono : count_at_least v row <= count_at_least v pred).
  { unfold count_at_least. apply length_filter_mono.
    apply Forall2_same_length_lookup_2; [assumption|].
    intros i x y Hx Hy Hle. rewrite (Hlook i) in Hx. unfold filtered_at in Hx.
    destruct (decide (i = t)) as [->|_]; [congruence|].
    destruct (decide (i ∈ filter)); [|congruence].
    injection Hx as <-. exfalso. by apply Qle_not_lt in Hle. }
  lia.
Qed.

Lemma filter_improves_positive_target_witness :
  exists r r0,
    filtered_rank scores5 4 [1] = Ok r /\
    filtered_rank scores5 4 [] = Ok r0 /\
    r <= r0.
Proof.
  apply (filter_improves_positive_target scores5 4 [1] (2#10)).
  - reflexivity.
  - reflexivity.
  - reflexivity.
  - repeat constructor.
Defined.

(** X4. Zeroing is not removal.  A filtered entity other than the target
    is placed after a target whose score is positive, and before a target
    whose score is negative; in the second case the target's rank is at
    least 2. *)
Theorem filtered_entity_placement (pred : list Q) (t j : nat)
  (filter : list nat) (v : Q) (r : nat) :
  pred !! t = Some v ->
  j ∈ filter ->
  j <> t ->
  filtered_rank pred t filter = Ok r ->
  exists row kj,
    filter_row pred t filter = Ok row /\
    position row j = Ok kj /\
    ((0 < v)%Q -> r < kj + 1) /\
    ((v < 0)%Q -> kj + 1 < r /\ 2 <= r).
Proof.
  intros Hv Hj Hne Hr.
  apply filtered_rank_Ok in Hr as (row & k & Hrow & Hk & ->).
  pose proof Hrow as Hspec.
  apply filter_row_Ok in Hspec as (_ & Hall & Hlen & Hlook).
  assert (Hrt : row !! t = Some v).
  { rewrite (Hlook t). unfold filtered_at. by rewrite decide_True. }
  assert (Hrj : row !! j = Some 0%Q).
  { rewrite (Hlook j). unfold filtered_at.
    rewrite decide_False by assumption. by rewrite decide_True. }
  destruct (position_total row j) as (kj & Hkj & _).
  { rewrite Hlen. rewrite Forall_forall in Hall. by apply Hall. }
  exists row, kj. split; [assumption|]. split; [assumption|]. split.
  - intros Hpos.
    pose proof (higher_score_first row t j k kj v 0%Q Hk Hkj Hrt Hrj Hpos). lia.
  - intros Hneg.
    pose proof (higher_score_first row j t kj k 0%Q v Hkj Hk Hrj Hrt Hneg). lia.
Qed.

Lemma filtered_entity_placement_witness :
  exists row kj,
    filter_row scores5 4 [1] = Ok row /\
    position row 1 = Ok kj /\
    ((0 < 2#10)%Q -> 2 < kj + 1) /\
    ((2#10 < 0)%Q -> kj + 1 < 2 /\ 2 <= 2).
Proof.
  apply (filtered_entity_placement scores5 4 1 [1] (2#10) 2).
  - reflexivity.
  - apply elem_of_cons. by left.
  - lia.
  - reflexivity.
Defined.

(** ** Failure of the pass *)

Lemma bind_Raise {A B : Type} (m : result A) (k : A -> result B) (e : exn) :
  bind m k = Raise e <->
  m = Raise e \/ exists a, m = Ok a /\ k a = Raise e.
Proof.
  destruct m as [a|e']; cbn [bind]; split.
  - intros H. right. by exists a.
  - intros [H|(a' & [= <-] & H)]; [discriminate | exact H].
  - intros [= ->]. by left.
  - intros [[= ->]|(a' & H & _)]; [reflexivity | discriminate].
Qed.

Lemma mapM_result_Raise {A B : Type} (f : A -> result B) (xs : list A)
  (e : exn) :
  mapM_result f xs = Raise e -> exists x, x ∈ xs /\ f x = Raise e.
Proof.
  induction xs as [|x xs IH]; cbn [mapM_result]; [discriminate|].
  intros H. apply bind_Raise in H as [H|(y & Hy & H)].
  - exists x. split; [apply elem_of_cons; by left | exact H].
  - apply bind_Raise in H as [H|(ys & _ & H)]; [|discriminate].
    destruct (IH H) as (x' & Hin & Hx').
    exists x'. split; [apply elem_of_cons; by right | exact Hx'].
Qed.

Lemma foldM_Raise {A B : Type} (f : A -> B -> result A) (xs : list B) :
  forall (a : A) (e : exn),
  foldM f a xs = Raise e -> exists a' x, x ∈ xs /\ f a' x = Raise e.
Proof.
  induction xs as [|x xs IH]; intros a e; cbn [foldM]; [discriminate|].
  intros H. apply bind_Raise in H as [H|(a1 & _ & H)].
  - exists a, x. split; [apply elem_of_cons; by left | exact H].
  - destruct (IH a1 e H) as (a' & x' & Hin & Hx').
    exists a', x'. split; [apply elem_of_cons; by right | exact Hx'].
Qed.

Lemma getitem_Raise (row : list Q) (j : nat) (e : exn) :
  getitem row j = Raise e -> e = IndexError.
Proof. unfold getitem. destruct (row !! j); congruence. Qed.

Lemma index_fill_Raise (idx : list nat) : forall (row : list Q) (v : Q) (e : exn),
  index_fill row idx v = Raise e -> e = IndexError.
Proof.
  induction idx as [|j idx IH]; intros row v e; cbn [index_fill];
    [discriminate|].
  destruct (j <? length row); [apply IH | congruence].
Qed.

Lemma where_first_Raise (arr : list nat) (x : nat) (e : exn) :
  where_first arr x = Raise e -> e = IndexError.
Proof.
  unfold where_first. destruct (list_find _ arr) as [[k y]|]; congruence.
Qed.

Lemma filter_example_Raise (ex : example) (e : exn) :
  filter_example ex = Raise e -> e = IndexError.
Proof.
  unfold filter_example. intros H.
  repeat (apply bind_Raise in H as [H|(? & _ & H)];
          [first [by eapply getitem_Raise | by eapply index_fill_Raise]|]).
  discriminate.
Qed.

Lemma rank_example_Raise (a : accum) (x : example * (list nat * list nat))
  (e : exn) :
  rank_example a x = Raise e -> e = IndexError.
Proof.
  destruct x as [ex [as1 as2]]. unfold rank_example. intros H.
  repeat (apply bind_Raise in H as [H|(? & _ & H)];
          [by eapply where_first_Raise|]).
  discriminate.
Qed.

Lemma batch_step_Raise (a : accum) (batch : list example) (e : exn) :
  batch_step a batch = Raise e -> e = IndexError.
Proof.
  unfold batch_step. intros H.
  apply bind_Raise in H as [H|(filtered & _ & H)].
  - apply mapM_result_Raise in H as (ex & _ & H).
    by eapply filter_example_Raise.
  - apply foldM_Raise in H as (a' & x & _ & H).
    by eapply rank_example_Raise.
Qed.

(** The only exception of the pass. *)
Lemma ranking_and_hits_this_Raise (batches : list (list example)) (e : exn) :
  ranking_and_hits_this batches = Raise e -> e = IndexError.
Proof.
  unfold ranking_and_hits_this, evaluate. intros H.
  apply bind_Raise in H as [H|(a & _ & H)]; [|discriminate].
  apply foldM_Raise in H as (a' & batch & _ & H).
  by eapply batch_step_Raise.
Qed.

Lemma example_ranks_wf (ex : example) (r : nat * nat) :
  example_ranks ex = Ok r -> wf_example ex.
Proof.
  destruct r as [r1 r2]. intros H.
  apply example_ranks_Ok in H as [H1 H2].
  apply filtered_rank_Ok in H1 as (row1 & _ & H1 & _).
  apply filtered_rank_Ok in H2 as (row2 & _ & H2 & _).
  apply filter_row_Ok in H1 as (? & ? & _).
  apply filter_row_Ok in H2 as (? & ? & _).
  by repeat split.
Qed.

(** X5. The pass returns its metrics exactly when, in every example, both
    targets and all filter indices lie within the score rows; on every
    other input it ends with an exception instead. *)
Theorem pass_succeeds_iff_in_range (batches : list (list example)) :
  (Forall wf_example (concat batches) <->
   exists m mrr, ranking_and_hits_this batches = Ok (m, mrr)) /\
  (~ Forall wf_example (concat batches) <->
   exists e, ranking_and_hits_this batches = Raise e).
Proof.
  assert (Hiff : Forall wf_example (concat batches) <->
                 exists m mrr, ranking_and_hits_this batches = Ok (m, mrr)).
  { split.
    - intros Hwf.
      destruct (mapM_result_total example_ranks wf_example (concat batches)
                  example_ranks_total Hwf) as [rk Hrk].
      eexists _, _. apply ranking_and_hits_this_Ok. by exists rk.
    - intros (m & mrr & H).
      apply ranking_and_hits_this_Ok in H as (rk & Hrk & _).
      apply mapM_result_Forall2 in Hrk.
      apply Forall_forall. intros ex Hin.
      apply list_elem_of_lookup in Hin as [i Hi].
      destruct (Forall2_lookup_l _ _ _ _ _ Hrk Hi) as (r & _ & Hr).
      by eapply example_ranks_wf. }
  split; [exact Hiff|]. split.
  - intros Hnwf.
    destruct (ranking_and_hits_this batches) as [[m mrr]|e] eqn:Hrun.
    + exfalso. apply Hnwf, Hiff. by exists m, mrr.
    + by exists e.
  - intros [e He] Hwf. apply Hiff in Hwf as (m & mrr & Hok). congruence.
Qed.

(** X6. The metrics and the returned value depend only on the sequence of
    examples, not on how it is cut into batches. *)
Theorem batching_invariant (batches1 batches2 : list (list example)) :
  concat batches1 = concat batches2 ->
  ranking_and_hits_this batches1 = ranking_and_hits_this batches2.
Proof.
  intros Heq.
  destruct (ranking_and_hits_this batches1) as [[m mrr]|e] eqn:H1.
  - symmetry. apply ranking_and_hits_this_Ok.
    apply ranking_and_hits_this_Ok in H1. by rewrite <- Heq.
  - destruct (ranking_and_hits_this batches2) as [[m mrr]|e'] eqn:H2.
    + apply ranking_and_hits_this_Ok in H2. rewrite <- Heq in H2.
      apply ranking_and_hits_this_Ok in H2. congruence.
    + apply ranking_and_hits_this_Raise in H1, H2. congruence.
Qed.

Lemma batching_invariant_witness :
  ranking_and_hits_this [[scenario]; [scenario; scenario]] =
  ranking_and_hits_this [[scenario; scenario]; []; [scenario]].
Proof.
  apply (batching_invariant [[scenario]; [scenario; scenario]]
           [[scenario; scenario]; []; [scenario]]).
  reflexivity.
Defined.

(** X7. A pass that sees no example does not fail: every reported mean is
    not-a-number, and so is the returned value. *)
Theorem empty_pass_is_nan (batches : list (list example)) :
  concat batches = [] ->
  ranking_and_hits_this batches =
    Ok ({| Hits_left := replicate 10 None;
           Hits_right := replicate 10 None;
           Hits := replicate 10 None;
           Mean_rank_left := None;
           Mean_rank_right := None;
           Mean_rank := None;
           Mean_reciprocal_rank_left := None;
           Mean_reciprocal_rank_right := None;
           Mean_reciprocal_rank := None |}, None).
Proof.
  intros Hnil. apply ranking_and_hits_this_Ok. exists [].
  rewrite Hnil. repeat split.
Qed.

Lemma empty_pass_is_nan_witness :
  ranking_and_hits_this [[]; []] =
    Ok ({| Hits_left := replicate 10 None;
           Hits_right := replicate 10 None;
           Hits := replicate 10 None;
           Mean_rank_left := None;
           Mean_rank_right := None;
           Mean_rank := None;
           Mean_reciprocal_rank_left := None;
           Mean_reciprocal_rank_right := None;
           Mean_reciprocal_rank := None |}, None).
Proof.
  apply (empty_pass_is_nan [[]; []]). reflexivity.
Defined.

(** ** Hit rates as fractions of the ranks *)

Lemma both_ext {A : Type} (f g : nat -> A) (rk : list (nat * nat)) :
  (forall r, f r = g r) -> both f rk = both g rk.
Proof.
  intros Hfg. induction rk as [|r rk IH]; cbn [both]; [reflexivity|].
  by rewrite !Hfg, IH.
Qed.

(** Entry [i] of the hit list of a level is the indicator computed from
    entry [i] of the matching rank list. *)
Lemma hits_aligned (batches : list (list example)) (a : accum) (k : nat) :
  evaluate batches = Ok a ->
  k < 10 ->
  hits a !! k = Some ((fun r => hit (r - 1) k) <$> ranks a) /\
  hits_left a !! k = Some ((fun r => hit (r - 1) k) <$> ranks_left a) /\
  hits_right a !! k = Some ((fun r => hit (r - 1) k) <$> ranks_right a).
Proof.
  intros Ha Hk. apply evaluate_Ok in Ha as (rk & _ & ->).
  destruct (accum_closed rk) as (-> & -> & -> & Hhits).
  destruct (Hhits k Hk) as (-> & -> & ->).
  rewrite fmap_both, <- !list_fmap_compose.
  split; [|split]; f_equal.
  - apply both_ext. intros r. f_equal. lia.
  - apply list_fmap_ext. intros i r _. cbn. f_equal. lia.
  - apply list_fmap_ext. intros i r _. cbn. f_equal. lia.
Qed.

Lemma Qsum_indicator (k : nat) (rs : list nat) :
  (Qsum ((fun r => hit (r - 1) k) <$> rs) ==
   Qlen (filter (fun r => (r <= k + 1)%nat) rs))%Q.
Proof.
  induction rs as [|r rs IH]; cbn [fmap list_fmap Qsum]; [reflexivity|].
  rewrite filter_cons, IH. unfold hit.
  destruct (decide (r <= k + 1)), (Nat.leb_spec (r - 1) k); try lia.
  - rewrite Qlen_cons. lra.
  - lra.
Qed.

Lemma np_mean_indicator (k : nat) (rs : list nat) :
  rs <> [] ->
  exists x, np_mean ((fun r => hit (r - 1) k) <$> rs) = Some x /\
            (x == within (k + 1) rs)%Q.
Proof.
  intros Hne. rewrite np_mean_Some by (by apply fmap_nil_inv').
  eexists. split; [reflexivity|].
  unfold within. by rewrite Qsum_indicator, Qlen_fmap.
Qed.

(** X8. After a pass over at least one example, the reported hits@(k+1)
    is the fraction of the recorded ranks that are at most k+1, in the
    combined list and in the left and the right list. *)
Theorem hit_rate_is_fraction (batches : list (list example)) (a : accum)
  (k : nat) :
  evaluate batches = Ok a ->
  concat batches <> [] ->
  k < 10 ->
  (exists x, Hits (report a) !! k = Some (Some x) /\
             (x == within (k + 1) (ranks a))%Q) /\
  (exists x, Hits_left (report a) !! k = Some (Some x) /\
             (x == within (k + 1) (ranks_left a))%Q) /\
  (exists x, Hits_right (report a) !! k = Some (Some x) /\
             (x == within (k + 1) (ranks_right a))%Q).
Proof.
  intros Ha Hne Hk.
  destruct (hits_aligned batches a k Ha Hk) as (Hh & Hl & Hr).
  apply evaluate_Ok in Ha as (rk & Hrk & ->).
  pose proof (mapM_result_nonempty _ _ _ Hrk Hne) as Hrkne.
  destruct (accum_closed rk) as (Hranks & Hleft & Hright & _).
  cbn [report Hits Hits_left Hits_right].
  rewrite !list_lookup_fmap, Hh, Hl, Hr.
  cbn [fmap option_fmap option_map].
  split; [|split].
  - destruct (np_mean_indicator k (ranks (record_all rk accum_init)))
      as (x & -> & Hx); [rewrite Hranks; by apply both_nil_inv|].
    by exists x.
  - destruct (np_mean_indicator k (ranks_left (record_all rk accum_init)))
      as (x & -> & Hx); [rewrite Hleft; by apply fmap_nil_inv'|].
    by exists x.
  - destruct (np_mean_indicator k (ranks_right (record_all rk accum_init)))
      as (x & -> & Hx); [rewrite Hright; by apply fmap_nil_inv'|].
    by exists x.
Qed.

Lemma hit_rate_is_fraction_witness :
  (exists x, Hits (report scenario_accum) !! 0 = Some (Some x) /\
             (x == within (0 + 1) (ranks scenario_accum))%Q) /\
  (exists x, Hits_left (report scenario_accum) !! 0 = Some (Some x) /\
             (x == within (0 + 1) (ranks_left scenario_accum))%Q) /\
  (exists x, Hits_right (report scenario_accum) !! 0 = Some (Some x) /\
             (x == within (0 + 1) (ranks_right scenario_accum))%Q).
Proof.
  apply (hit_rate_is_fraction [[scenario]] scenario_accum 0).
  - vm_compute. reflexivity.
  - discriminate.
  - lia.
Defined.

(** ** [post_process] *)

(** X9. When [post_process] returns, the returned entity has a score that
    no other entity exceeds, the printed rank is the rank of the target
    computed without any filter, and the returned entity is the target
    exactly when the printed rank is 1. *)
Theorem post_process_returns_top (logits : list Q) (e2 rank top : nat) :
  post_process logits e2 = Ok (rank, top) ->
  (exists xt, logits !! top = Some xt /\
              forall j x, logits !! j = Some x -> (x <= xt)%Q) /\
  filtered_rank logits e2 [] = Ok rank /\
  (rank = 1 <-> top = e2).
Proof.
  unfold post_process. intros H.
  apply bind_Ok in H as (rank1 & Hrank & H).
  destruct (argsort logits !! 0) as [top'|] eqn:Htop; [|discriminate].
  injection H as <- <-.
  assert (Hpos : position logits top' = Ok 0).
  { apply where_first_Ok. split; [assumption|]. intros j y _ Hj. lia. }
  destruct (position_in_range _ _ _ Hpos) as [_ Hlt].
  destruct (position_in_range logits e2 rank1 Hrank) as [_ He2].
  destruct (lookup_lt_is_Some_2 logits top' Hlt) as [xt Hxt].
  split; [|split].
  - exists xt. split; [assumption|]. intros j x Hx.
    apply Qnot_lt_le. intros Hlt'.
    destruct (position_total logits j) as (kj & Hkj & _);
      [by eapply lookup_lt_Some|].
    pose proof (higher_score_first logits j top' kj 0 x xt Hkj Hpos Hx Hxt Hlt').
    lia.
  - apply filtered_rank_Ok. exists logits, rank1.
    split; [by apply filter_row_nil|]. by split.
  - pose proof Hrank as Hrank'.
    apply where_first_Ok in Hrank as [Hk _]. split.
    + intros Hone. assert (rank1 = 0) by lia. subst. congruence.
    + intros ->. unfold position in Hpos. rewrite Hrank' in Hpos.
      injection Hpos as ->. lia.
Qed.

Lemma post_process_returns_top_witness :
  (exists xt, scores5 !! 1 = Some xt /\
              forall j x, scores5 !! j = Some x -> (x <= xt)%Q) /\
  filtered_rank scores5 4 [] = Ok 3 /\
  (3 = 1 <-> 1 = 4).
Proof.
  apply (post_process_returns_top scores5 4 3 1). reflexivity.
Defined.

(** ** The edges collected for the graph *)

Lemma extend_nil (acc : edges) : extend acc [] = acc.
Proof. destruct acc. unfold extend. cbn. by rewrite !app_nil_r. Qed.

Lemma extend_extend (acc : edges) (l1 l2 : list (nat * (nat * nat))) :
  extend (extend acc l1) l2 = extend acc (l1 ++ l2).
Proof.
  unfold extend. cbn [data rows columns].
  by rewrite !fmap_app, !(assoc_L (++)).
Qed.

Lemma collect_row_extend (e1 rel : nat) (row : list nat) : forall acc : edges,
  collect_row e1 rel row acc =
  extend acc ((fun o => (e1, (rel, o))) <$> before_zero row).
Proof.
  induction row as [|o row IH]; intros acc; cbn [collect_row before_zero].
  - cbn. by rewrite extend_nil.
  - destruct (negb (o =? 0)); [|cbn; by rewrite extend_nil].
    rewrite IH. cbn [fmap list_fmap].
    change (extend (extend acc [(e1, (rel, o))])
              ((fun o0 => (e1, (rel, o0))) <$> before_zero row) =
            extend acc ((e1, (rel, o)) ::
                        ((fun o0 => (e1, (rel, o0))) <$> before_zero row))).
    by rewrite extend_extend.
Qed.

Lemma foldl_concat {A B : Type} (f : A -> B -> A) (ls : list (list B)) :
  forall a : A,
  foldl (fun acc l => foldl f acc l) a ls = foldl f a (concat ls).
Proof.
  induction ls as [|l ls IH]; intros a; cbn [foldl concat]; [reflexivity|].
  by rewrite foldl_app, IH.
Qed.

Lemma collect_examples (exs : list train_example) : forall acc : edges,
  foldl (fun acc ex => collect_row (t_e1 ex) (t_rel ex) (t_e2_multi1 ex) acc)
        acc exs = extend acc (all_edges exs).
Proof.
  induction exs as [|ex exs IH]; intros acc; cbn [foldl all_edges].
  - by rewrite extend_nil.
  - by rewrite IH, collect_row_extend, extend_extend.
Qed.

Lemma preprocess_closed (batches : list (list train_example)) :
  preprocess batches =
  extend {| data := []; rows := []; columns := [] |}
         (all_edges (concat batches)).
Proof.
  unfold preprocess.
  rewrite (foldl_concat
             (fun acc ex =>
                collect_row (t_e1 ex) (t_rel ex) (t_e2_multi1 ex) acc)).
  apply collect_examples.
Qed.

Lemma triples_extend_empty (l : list (nat * (nat * nat))) :
  triples (extend {| data := []; rows := []; columns := [] |} l) = l.
Proof.
  unfold triples, extend. cbn [data rows columns app].
  induction l as [|[a [b c]] l IH]; [reflexivity|].
  cbn [fmap list_fmap zip zip_with fst snd]. f_equal. exact IH.
Qed.

Lemma elem_of_before_zero (o : nat) (row : list nat) :
  o ∈ before_zero row <->
  exists pre post, row = pre ++ o :: post /\ (0 ∉ pre) /\ o <> 0.
Proof.
  induction row as [|x row IH]; cbn [before_zero].
  - rewrite elem_of_nil. split; [tauto|].
    intros (pre & post & H & _). by destruct pre.
  - destruct (Nat.eqb_spec x 0) as [->|Hx]; cbn [negb].
    + rewrite elem_of_nil. split; [tauto|].
      intros (pre & post & H & Hpre & Ho).
      destruct pre as [|p pre]; injection H as <- _.
      * congruence.
      * apply Hpre, elem_of_cons. by left.
    + rewrite elem_of_cons, IH. split.
      * intros [->|(pre & post & -> & Hpre & Ho)].
        -- exists [], row. repeat split; [apply not_elem_of_nil | assumption].
        -- exists (x :: pre), post. repeat split; [|assumption].
           rewrite elem_of_cons. intros [?|?]; [congruence | contradiction].
      * intros (pre & post & H & Hpre & Ho).
        destruct pre as [|p pre]; injection H as <- H.
        -- by left.
        -- right. exists pre, post. repeat split; [assumption| |assumption].
           intros Hin. apply Hpre, elem_of_cons. by right.
Qed.

Lemma elem_of_all_edges (e1 rel o : nat) (exs : list train_example) :
  (e1, (rel, o)) ∈ all_edges exs <->
  exists ex, ex ∈ exs /\ t_e1 ex = e1 /\ t_rel ex = rel /\
             o ∈ before_zero (t_e2_multi1 ex).
Proof.
  induction exs as [|ex exs IH]; cbn [all_edges].
  - rewrite elem_of_nil. split; [tauto|].
    intros (ex & Hin & _). by apply elem_of_nil in Hin.
  - rewrite elem_of_app, IH. unfold edge_list. rewrite list_elem_of_fmap.
    split.
    + intros [(o' & [= -> -> ->] & Ho)|(ex' & Hin & H)].
      * exists ex. split; [apply elem_of_cons; by left | by repeat split].
      * exists ex'. split; [apply elem_of_cons; by right | exact H].
    + intros (ex' & Hin & <- & <- & Ho).
      apply elem_of_cons in Hin as [->|Hin].
      * left. by exists o.
      * right. by exists ex'.
Qed.

(** X10. The three lists built for the graph have equal length, and the
    triple (e1, rel, e2) is collected exactly when some training example
    with that subject and relation lists e2 in its filter row before any 0:
    a row is read up to its first 0 and no further, so entity 0 is never
    the object of an edge. *)
Theorem preprocess_collects (batches : list (list train_example)) :
  length (data (preprocess batches)) = length (rows (preprocess batches)) /\
  length (rows (preprocess batches)) = length (columns (preprocess batches)) /\
  (forall e1 rel o,
     (e1, (rel, o)) ∈ triples (preprocess batches) <->
     exists ex pre post,
       ex ∈ concat batches /\ t_e1 ex = e1 /\ t_rel ex = rel /\
       t_e2_multi1 ex = pre ++ o :: post /\ (0 ∉ pre) /\ o <> 0) /\
  0 ∉ columns (preprocess batches).
Proof.
  rewrite preprocess_closed.
  split; [|split; [|split]].
  - unfold extend. cbn [data rows app]. by rewrite !length_fmap.
  - unfold extend. cbn [rows columns app]. by rewrite !length_fmap.
  - intros e1 rel o. rewrite triples_extend_empty, elem_of_all_edges.
    split.
    + intros (ex & Hin & H1 & H2 & Ho).
      apply elem_of_before_zero in Ho as (pre & post & Hrow & Hpre & Hne).
      by exists ex, pre, post.
    + intros (ex & pre & post & Hin & H1 & H2 & Hrow & Hpre & Hne).
      exists ex. repeat split; try assumption.
      apply elem_of_before_zero. by exists pre, post.
  - unfold extend. cbn [columns app]. intros Hin.
    apply list_elem_of_fmap in Hin as ([e1 [rel o]] & Ho & Hin).
    cbn in Ho. subst o.
    apply elem_of_all_edges in Hin as (ex & _ & _ & _ & Hz).
    apply elem_of_before_zero in Hz as (_ & _ & _ & _ & Hne). congruence.
Qed.

(** ** Keeping the best model *)

Lemma dev_evaluated_iff (epoch : nat) :
  ((epoch mod 2 =? 0) && (0 <? epoch) = true) <-> dev_evaluated epoch.
Proof.
  unfold dev_evaluated, Config.epoch_events.
  destruct ((epoch mod 2 =? 0) && (0 <? epoch)); cbn; split; intros H;
    try done; auto.
  - destruct H as [H|[]]. discriminate H.
Qed.

Lemma best_loop_spec (dev : nat -> option Q) (n : nat) :
  forall (i : nat) (b : Q) (s : list nat) (b' : Q) (s' : list nat),
  best_loop n dev i b s = (b', s') ->
  (b <= b')%Q /\
  (forall e m, i <= e -> e < i + n -> dev_evaluated e -> dev e = Some m ->
               (m <= b')%Q) /\
  (exists t, s' = s ++ t /\
             Forall (fun e => i <= e /\ e < i + n /\ dev_evaluated e) t) /\
  ((s' = s /\ b' = b) \/
   (exists e, last s' = Some e /\ dev e = Some b' /\ (b < b')%Q /\
              forall e' m, i <= e' -> e' < e -> dev_evaluated e' ->
                           dev e' = Some m -> (m < b')%Q)).
Proof.
  induction n as [|n IH]; intros i b s b' s' H; cbn [best_loop] in H.
  - injection H as <- <-. split; [lra|]. split; [intros; lia|].
    split; [exists []; by rewrite app_nil_r|]. by left.
  - destruct ((i mod 2 =? 0) && (0 <? i)) eqn:Hc.
    + apply dev_evaluated_iff in Hc.
      destruct (dev i) as [m|] eqn:Hdev;
        [destruct (decide (b < m)%Q) as [Hlt|Hge]|].
      * apply IH in H as (Hle & Hall & (t & -> & Ht) & Hcase).
        split; [lra|]. split.
        { intros e x He1 He2 Hev Hx. destruct (decide (e = i)) as [->|Hne].
          - assert (x = m) by congruence. subst x. exact Hle.
          - apply (Hall e x); [lia | lia | assumption | assumption]. }
        split.
        { exists (i :: t). split; [by rewrite <- (assoc_L (++))|].
          constructor; [repeat split; [lia | lia | assumption]|].
          eapply Forall_impl; [exact Ht|]. intros e (? & ? & ?).
          repeat split; [lia | lia | assumption]. }
        right. destruct Hcase as [[Hs ->]|(e & Hlast & He & Hlt' & Hbefore)].
        -- exists i. rewrite Hs, last_snoc. repeat split; try done.
           intros e' x He1 He2. lia.
        -- exists e. repeat split; try done; [lra|].
           intros e' x He1 He2 Hev Hx.
           destruct (decide (e' = i)) as [->|Hne].
           ++ assert (x = m) by congruence. subst x. exact Hlt'.
           ++ apply (Hbefore e' x); [lia | assumption | assumption | assumption].
      * apply Qnot_lt_le in Hge.
        apply IH in H as (Hle & Hall & (t & -> & Ht) & Hcase).
        split; [assumption|]. split.
        { intros e x He1 He2 Hev Hx. destruct (decide (e = i)) as [->|Hne].
          - assert (x = m) by congruence. subst x. lra.
          - apply (Hall e x); [lia | lia | assumption | assumption]. }
        split.
        { exists t. split; [reflexivity|].
          eapply Forall_impl; [exact Ht|]. intros e (? & ? & ?).
          repeat split; [lia | lia | assumption]. }
        destruct Hcase as [[Hs ->]|(e & Hlast & He & Hlt' & Hbefore)];
          [by left|].
        right. exists e. repeat split; try done.
        intros e' x He1 He2 Hev Hx.
        destruct (decide (e' = i)) as [->|Hne].
        -- assert (x = m) by congruence. subst x. lra.
        -- apply (Hbefore e' x); [lia | assumption | assumption | assumption].
      * apply IH in H as (Hle & Hall & (t & -> & Ht) & Hcase).
        split; [assumption|]. split.
        { intros e x He1 He2 Hev Hx. destruct (decide (e = i)) as [->|Hne].
          - congruence.
          - apply (Hall e x); [lia | lia | assumption | assumption]. }
        split.
        { exists t. split; [reflexivity|].
          eapply Forall_impl; [exact Ht|]. intros e (? & ? & ?).
          repeat split; [lia | lia | assumption]. }
        destruct Hcase as [[Hs ->]|(e & Hlast & He & Hlt' & Hbefore)];
          [by left|].
        right. exists e. repeat split; try done.
        intros e' x He1 He2 Hev Hx.
        destruct (decide (e' = i)) as [->|Hne]; [congruence|].
        apply (Hbefore e' x); [lia | assumption | assumption | assumption].
    + assert (Hnot : ~ dev_evaluated i).
      { intros Hev. apply dev_evaluated_iff in Hev. congruence. }
      apply IH in H as (Hle & Hall & (t & -> & Ht) & Hcase).
      split; [assumption|]. split.
      { intros e x He1 He2 Hev Hx. destruct (decide (e = i)) as [->|Hne].
        - contradiction.
        - apply (Hall e x); [lia | lia | assumption | assumption]. }
      split.
      { exists t. split; [reflexivity|].
        eapply Forall_impl; [exact Ht|]. intros e (? & ? & ?).
        repeat split; [lia | lia | assumption]. }
      destruct Hcase as [[Hs ->]|(e & Hlast & He & Hlt' & Hbefore)];
        [by left|].
      right. exists e. repeat split; try done.
      intros e' x He1 He2 Hev Hx.
      destruct (decide (e' = i)) as [->|Hne]; [contradiction|].
      apply (Hbefore e' x); [lia | assumption | assumption | assumption].
Qed.

(** X15. In the training loop of main, where [best_mrr] starts at 0 after
    the evaluations of a resumed run, the model is saved only after dev
    evaluations of the loop, and the final [best_mrr] is at least every dev
    MRR that the loop received.  Either no model was saved, and then
    [best_mrr] is still 0 and no dev MRR of the loop exceeded 0; or the
    last save came after the first epoch whose dev MRR equals the final
    [best_mrr], which is positive and strictly above those of all earlier
    epochs. *)
Theorem best_model_kept (epochs : nat) (dev_mrr : nat -> option Q)
  (best_mrr : Q) (saved : list nat) :
  kgc_best epochs dev_mrr = (best_mrr, saved) ->
  (forall e m, e < epochs -> dev_evaluated e -> dev_mrr e = Some m ->
               (m <= best_mrr)%Q) /\
  Forall (fun e => e < epochs /\ dev_evaluated e) saved /\
  ((saved = [] /\ best_mrr = 0%Q /\
    forall e m, e < epochs -> dev_evaluated e -> dev_mrr e = Some m ->
                (m <= 0)%Q) \/
   (exists e, last saved = Some e /\
              dev_mrr e = Some best_mrr /\
              (0 < best_mrr)%Q /\
              forall e' m, e' < e -> dev_evaluated e' ->
                           dev_mrr e' = Some m -> (m < best_mrr)%Q)).
Proof.
  unfold kgc_best. intros H.
  apply best_loop_spec in H as (_ & Hall & (t & -> & Ht) & Hcase).
  assert (Hall' : forall e m, e < epochs -> dev_evaluated e ->
                              dev_mrr e = Some m -> (m <= best_mrr)%Q).
  { intros e m He. apply Hall; lia. }
  split; [assumption|]. split.
  { cbn [app]. eapply Forall_impl; [exact Ht|]. intros e (_ & ? & ?).
    split; [lia | assumption]. }
  destruct Hcase as [[Hs ->]|(e & Hlast & He & Hlt & Hbefore)].
  - left. cbn [app] in Hs. by repeat split.
  - right. exists e. repeat split; try done.
    intros e' m. apply Hbefore. lia.
Qed.

Lemma best_model_kept_witness :
  (forall e m, e < 5 -> dev_evaluated e -> five_epochs e = Some m ->
               (m <= 3#4)%Q) /\
  Forall (fun e => e < 5 /\ dev_evaluated e) [2; 4] /\
  (([2; 4] = [] /\ (3#4)%Q = 0%Q /\
    forall e m, e < 5 -> dev_evaluated e -> five_epochs e = Some m ->
                (m <= 0)%Q) \/
   (exists e, last [2; 4] = Some e /\
              five_epochs e = Some (3#4)%Q /\
              (0 < 3#4)%Q /\
              forall e' m, e' < e -> dev_evaluated e' ->
                           five_epochs e' = Some m -> (m < 3#4)%Q)).
Proof.
  apply (best_model_kept 5 five_epochs (3#4)%Q [2; 4]). reflexivity.
Defined.

(** ** The returned value and the first checkpoint *)

Lemma Forall_both (P : nat -> Prop) (f : nat -> nat) (rk : list (nat * nat)) :
  (forall r, P (f r)) -> Forall P (both f rk).
Proof.
  intros Hf. induction rk as [|r rk IH]; cbn [both]; repeat constructor; auto.
Qed.

Lemma mean_reciprocal_bounds (rs : list nat) :
  rs <> [] ->
  Forall (fun r => 1 <= r) rs ->
  exists x, np_mean (reciprocals rs) = Some x /\ (0 < x)%Q /\ (x <= 1)%Q.
Proof.
  intros Hne Hall.
  destruct (Qsum_reciprocals rs Hall) as (_ & Hle & _).
  pose proof (Qsum_reciprocals_pos rs Hne Hall) as Hpos.
  pose proof (Qlen_pos rs Hne) as Hn.
  exists (Qsum (reciprocals rs) / Qlen rs)%Q. split.
  { rewrite np_mean_Some.
    - unfold reciprocals. by rewrite Qlen_fmap.
    - unfold reciprocals. by apply fmap_nil_inv'. }
  split; [apply Qlt_shift_div_l; lra | apply Qle_shift_div_r; lra].
Qed.

(** X16. A dev pass over at least one example, all within range, returns
    a mean reciprocal rank that is a number in (0, 1].  The training loop
    of main first evaluates the dev set after epoch 2, with [best_mrr]
    still 0 (what a resumed run evaluated before the loop is not kept):
    when that evaluation is such a pass and there are at least 3 epochs,
    the first save of the run is after epoch 2, whatever the later
    evaluations return. *)
Theorem first_evaluation_saves (batches : list (list example)) :
  concat batches <> [] ->
  Forall wf_example (concat batches) ->
  exists m x,
    ranking_and_hits_this batches = Ok (m, Some x) /\
    (0 < x)%Q /\ (x <= 1)%Q /\
    forall epochs dev_mrr best_mrr saved,
      3 <= epochs ->
      dev_mrr 2 = Some x ->
      kgc_best epochs dev_mrr = (best_mrr, saved) ->
      head saved = Some 2 /\ (x <= best_mrr)%Q.
Proof.
  intros Hne Hwf.
  destruct (mapM_result_total example_ranks wf_example (concat batches)
              example_ranks_total Hwf) as [rk Hrk].
  pose proof (mapM_result_nonempty _ _ _ Hrk Hne) as Hrkne.
  destruct (accum_closed rk) as (Hranks & _).
  destruct (mean_reciprocal_bounds (ranks (record_all rk accum_init)))
    as (x & Hx & Hpos & Hle1).
  { rewrite Hranks. by apply both_nil_inv. }
  { rewrite Hranks. apply Forall_both. intros r. lia. }
  exists (report (record_all rk accum_init)), x.
  split; [apply ranking_and_hits_this_Ok; by exists rk|].
  split; [assumption|]. split; [assumption|].
  intros epochs dev best saved Hep Hdev Hsel.
  destruct epochs as [|[|[|n]]]; try lia.
  unfold kgc_best in Hsel.
  change (best_loop (S (S (S n))) dev 0 0%Q [])
    with (match dev 2 with
          | Some m =>
              if decide (0 < m)%Q
              then best_loop n dev 3 m ([] ++ [2])
              else best_loop n dev 3 0%Q []
          | None => best_loop n dev 3 0%Q []
          end) in Hsel.
  rewrite Hdev, decide_True in Hsel by assumption.
  apply best_loop_spec in Hsel as (Hle & _ & (t & -> & _) & _).
  by split.
Qed.

Lemma first_evaluation_saves_witness :
  exists m x,
    ranking_and_hits_this [[scenario]] = Ok (m, Some x) /\
    (0 < x)%Q /\ (x <= 1)%Q /\
    forall epochs dev_mrr best_mrr saved,
      3 <= epochs ->
      dev_mrr 2 = Some x ->
      kgc_best epochs dev_mrr = (best_mrr, saved) ->
      head saved = Some 2 /\ (x <= best_mrr)%Q.
Proof.
  apply (first_evaluation_saves [[scenario]]).
  - discriminate.
  - exact scenario_wf.
Defined.

(** ** The order of the examples *)






(** ** Unknown model and graph types *)

Module ConfigFacts.
Import Config.
Local Open Scope string_scope.

Ltac eqb_cases H :=
  repeat match goal with
  | |- context [String.eqb ?a ?b] =>
      destruct (String.eqb_spec a b) as [->|_];
      [exfalso; apply H; repeat (first [left; reflexivity | right]);
       rewrite !elem_of_cons; tauto|]
  end.

Lemma KGC_unknown (m : string) :
  m ∉ kgc_models -> KGC (Some m) = Raise (Exception "Unknown model type!").
Proof.
  intros H. unfold KGC, kgc_models in *. eqb_cases H. reflexivity.
Qed.

Lemma TextClassifier_unknown (g : string) :
  g ∉ graph_types ->
  TextClassifier g = Raise (RuntimeError ("Unknown graph_type: " ++ g)).
Proof.
  intros H. unfold TextClassifier, graph_types in *. eqb_cases H.
  reflexivity.
Qed.

Lemma build_dataloader_unknown (g : string) :
  g ∉ graph_types ->
  build_dataloader g = Raise (NameError "name 'config' is not defined").
Proof.
  intros H. unfold build_dataloader, graph_types in *. eqb_cases H.
  reflexivity.
Qed.

Lemma prefix_refl (s : string) : String.prefix s s = true.
Proof.
  induction s as [|c s IH]; cbn; [reflexivity|].
  destruct (Ascii.ascii_dec c c); [assumption | congruence].
Qed.

Lemma contains_suffix (s t : string) : contains s (t ++ s) = true.
Proof.
  induction t as [|c t IH].
  - cbn [append]. destruct s; cbn [contains]; by rewrite prefix_refl.
  - cbn [append contains]. rewrite IH. apply orb_true_r.
Qed.

(** C4, as stated, fails for the knowledge-graph script: the model type
    "transe" is not recognised, and the message of the exception that
    [KGC] raises for it does not contain it. *)
Lemma kgc_message_omits_model :
  ("transe" ∉ kgc_models) /\
  (exists e, KGC (Some "transe") = Raise e /\
             contains "transe" (message e) = false).
Proof.
  split.
  - unfold kgc_models. rewrite !elem_of_cons, elem_of_nil.
    intros H. repeat destruct H as [H|H]; try discriminate H. exact H.
  - eexists. split; vm_compute; reflexivity.
Qed.

(** C4, amended.  For a model type that is not one of the six recognised
    ones, [KGC] raises [Exception] with the fixed message
    "Unknown model type!", and [main] of the knowledge-graph script ends
    with that exception before any training or evaluation.  For a graph
    type that is not one of the four recognised ones, [TextClassifier]
    raises [RuntimeError] whose message is "Unknown graph_type: " followed
    by the supplied string, and [main] of the text-classification script
    ends with an exception before any training or evaluation. *)
Theorem unknown_variant_fails_fast (cfg : kgc_cfg) (m g : string)
  (n : nat) (stop : nat -> bool) :
  model cfg = Some m ->
  m ∉ kgc_models ->
  g ∉ graph_types ->
  KGC (model cfg) = Raise (Exception "Unknown model type!") /\
  (exists tr, kgc_main cfg = (tr, Raise (Exception "Unknown model type!")) /\
              quiet tr = true) /\
  TextClassifier g = Raise (RuntimeError ("Unknown graph_type: " ++ g)) /\
  contains g (message (RuntimeError ("Unknown graph_type: " ++ g))) = true /\
  (exists tr e, tc_main g n stop = (tr, Raise e) /\ quiet tr = true).
Proof.
  intros Hm Hunknown Hg.
  pose proof (KGC_unknown m Hunknown) as HK. rewrite <- Hm in HK.
  split; [assumption|]. split.
  { unfold kgc_main. rewrite HK.
    destruct (preprocess cfg); cbn; eexists; split; reflexivity. }
  split; [by apply TextClassifier_unknown|].
  split; [apply contains_suffix|].
  unfold tc_main, ModelHandler. rewrite (build_dataloader_unknown g Hg).
  cbn. eexists _, _. split; reflexivity.
Qed.

Lemma unknown_variant_fails_fast_witness :
  KGC (model scenario_cfg) = Raise (Exception "Unknown model type!") /\
  (exists tr, kgc_main scenario_cfg =
                (tr, Raise (Exception "Unknown model type!")) /\
              quiet tr = true) /\
  TextClassifier "ie" = Raise (RuntimeError ("Unknown graph_type: " ++ "ie")) /\
  contains "ie" (message (RuntimeError ("Unknown graph_type: " ++ "ie"))) = true /\
  (exists tr e, tc_main "ie" 3 (fun _ => false) = (tr, Raise e) /\
                quiet tr = true).
Proof.
  apply (unknown_variant_fails_fast scenario_cfg "transe" "ie" 3
           (fun _ => false)).
  - reflexivity.
  - unfold kgc_models. rewrite !elem_of_cons, elem_of_nil.
    intros H. repeat destruct H as [H|H]; try discriminate H. exact H.
  - unfold graph_types. rewrite !elem_of_cons, elem_of_nil.
    intros H. repeat destruct H as [H|H]; try discriminate H. exact H.
Defined.

(** ** The schedule of [kgc_main] *)

Lemma repeat_run_events (body : nat -> run unit) (f : nat -> list event) :
  (forall e, body e = (f e, Ok tt)) ->
  forall n i, repeat_run n body i = (concat (f <$> seq i n), Ok tt).
Proof.
  intros Hbody. induction n as [|n IH]; intros i; cbn [repeat_run].
  - reflexivity.
  - rewrite Hbody. cbn [seq_run]. rewrite IH. reflexivity.
Qed.

(** The events of a run whose model type is recognised. *)
Lemma kgc_main_trace (cfg : kgc_cfg) (v : kgc_model) :
  KGC (model cfg) = Ok v ->
  kgc_main cfg =
    ((setup_events cfg ++ concat (epoch_events <$> seq 0 (epochs cfg)))%list,
     Ok tt).
Proof.
  intros HK. unfold kgc_main, for_range, setup_events. rewrite HK.
  rewrite (repeat_run_events _ epoch_events).
  - destruct (preprocess cfg), (resume cfg); reflexivity.
  - intros e. unfold epoch_events.
    destruct (e mod 2 =? 0)%nat, (0 <? e)%nat; reflexivity.
Qed.

Lemma count_app (p : event -> bool) (l1 l2 : list event) :
  count p (l1 ++ l2) = count p l1 + count p l2.
Proof. unfold count. by rewrite List.filter_app, length_app. Qed.

Lemma count_epochs (n : nat) :
  count is_train (concat (epoch_events <$> seq 0 n)) = n /\
  count (is_evaluate "dev_evaluation")
        (concat (epoch_events <$> seq 0 n)) = (n - 1) / 2 /\
  count (is_evaluate "test_evaluation")
        (concat (epoch_events <$> seq 0 n)) = (n - 1) / 2.
Proof.
  induction n as [|n (IH1 & IH2 & IH3)]; [by repeat split|].
  rewrite seq_S, fmap_app, concat_app, !count_app, IH1, IH2, IH3.
  cbn [fmap list_fmap concat Nat.add]. rewrite app_nil_r.
  unfold epoch_events.
  assert (Hhalf : (n - 1) / 2 +
                  (if (n mod 2 =? 0)%nat && (0 <? n)%nat then 1 else 0) =
                  (S n - 1) / 2).
  { destruct (Nat.eqb_spec (n mod 2) 0) as [He|He],
             (Nat.ltb_spec 0 n) as [Hp|Hp]; cbn [andb];
      pose proof (Nat.div_mod_eq n 2);
      pose proof (Nat.div_mod_eq (n - 1) 2);
      pose proof (Nat.mod_upper_bound n 2);
      pose proof (Nat.mod_upper_bound (n - 1) 2);
      replace (S n - 1) with n by lia; lia. }
  rewrite <- Hhalf.
  destruct ((n mod 2 =? 0)%nat && (0 <? n)%nat); cbn; repeat split; lia.
Qed.

Lemma count_setup (cfg : kgc_cfg) :
  count is_train (setup_events cfg) = 0 /\
  count (is_evaluate "dev_evaluation") (setup_events cfg) =
    (if resume cfg then 1 else 0) /\
  count (is_evaluate "test_evaluation") (setup_events cfg) =
    (if resume cfg then 1 else 0).
Proof.
  unfold setup_events.
  destruct (preprocess cfg), (resume cfg); repeat split.
Qed.

(** X11. In a run of the knowledge-graph script with a recognised model
    type, every epoch trains once, and the dev set and the test set are
    each evaluated [(epochs - 1) / 2] times during training (after the
    epochs 2, 4, ... only), plus once before training when resuming; so
    with at most two epochs and no resuming nothing is ever evaluated. *)
Theorem kgc_schedule (cfg : kgc_cfg) (v : kgc_model) :
  KGC (model cfg) = Ok v ->
  exists tr,
    kgc_main cfg = (tr, Ok tt) /\
    count is_train tr = epochs cfg /\
    count (is_evaluate "dev_evaluation") tr =
      (if resume cfg then 1 else 0) + (epochs cfg - 1) / 2 /\
    count (is_evaluate "test_evaluation") tr =
      (if resume cfg then 1 else 0) + (epochs cfg - 1) / 2.
Proof.
  intros HK. eexists. split; [by eapply kgc_main_trace|].
  destruct (count_epochs (epochs cfg)) as (H1 & H2 & H3).
  destruct (count_setup cfg) as (S1 & S2 & S3).
  rewrite !count_app, H1, H2, H3, S1, S2, S3. by repeat split.
Qed.

Lemma kgc_schedule_witness :
  exists tr,
    kgc_main trained_cfg = (tr, Ok tt) /\
    count is_train tr = epochs trained_cfg /\
    count (is_evaluate "dev_evaluation") tr =
      (if resume trained_cfg then 1 else 0) + (epochs trained_cfg - 1) / 2 /\
    count (is_evaluate "test_evaluation") tr =
      (if resume trained_cfg then 1 else 0) + (epochs trained_cfg - 1) / 2.
Proof.
  apply (kgc_schedule trained_cfg Distmult). reflexivity.
Defined.

(** ** Which configurations are accepted *)

Ltac eqb_split g :=
  repeat match goal with
  | |- context [String.eqb g ?b] =>
      destruct (String.eqb_spec g b) as [->|?]
  end.

(** X12. [KGC] builds a model exactly when the model entry is null or one
    of the six lower-case names, and a null entry selects the same variant
    as "conve". *)
Theorem KGC_accepts (m : option string) :
  ((exists v, KGC m = Ok v) <->
   (m = None \/ exists s, m = Some s /\ s ∈ kgc_models)) /\
  KGC None = KGC (Some "conve").
Proof.
  split; [|reflexivity]. split.
  - intros [v Hv]. destruct m as [s|]; [|by left]. right. exists s.
    split; [reflexivity|]. unfold KGC, kgc_models in *. revert Hv.
    eqb_split s; try discriminate; intros _; rewrite !elem_of_cons; auto 10.
  - intros [->|(s & -> & Hin)]; [by exists ConvE|].
    unfold kgc_models in Hin. rewrite !elem_of_cons, elem_of_nil in Hin.
    destruct Hin as [->|[->|[->|[->|[->|[->|[]]]]]]]; eexists; reflexivity.
Qed.

(** X13. For a recognised graph type the data loader and the classifier
    select the same graph construction, which is static exactly for
    "dependency" and "constituency", and the handler is built.  For any
    other graph type the handler stops in the data loader with a
    [NameError], before any dataset is read: the [RuntimeError] that names
    the graph type is never what building the handler raises. *)
Theorem ModelHandler_outcomes (g : string) :
  (g ∈ graph_types ->
   exists b kind,
     build_dataloader g = Ok (b, kind) /\
     TextClassifier g = Ok b /\
     ModelHandler g = ([LoadDataset; ConstructModel; BuildOptimizer]%list, Ok b) /\
     (kind = "static" <-> g = "dependency" \/ g = "constituency")) /\
  (g ∉ graph_types ->
   ModelHandler g = ([]%list, Raise (NameError "name 'config' is not defined"))) /\
  (forall tr msg, ModelHandler g <> (tr, Raise (RuntimeError msg))).
Proof.
  split; [|split].
  - unfold graph_types. rewrite !elem_of_cons, elem_of_nil.
    intros [->|[->|[->|[->|[]]]]]; eexists _, _;
      (split; [reflexivity|]); (split; [reflexivity|]);
      (split; [reflexivity|]);
      (split; [intros H; first [by left | by right | discriminate H]
              |intros [H|H]; first [reflexivity | discriminate H]]).
  - intros Hg. unfold ModelHandler.
    by rewrite (build_dataloader_unknown g Hg).
  - intros tr msg. unfold ModelHandler, build_dataloader, TextClassifier.
    eqb_split g; vm_compute; discriminate.
Qed.

Lemma ModelHandler_outcomes_witness :
  exists b kind,
    build_dataloader "node_emb" = Ok (b, kind) /\
    TextClassifier "node_emb" = Ok b /\
    ModelHandler "node_emb" =
      ([LoadDataset; ConstructModel; BuildOptimizer]%list, Ok b) /\
    (kind = "static" <-> "node_emb" = "dependency" \/ "node_emb" = "constituency").
Proof.
  destruct (ModelHandler_outcomes "node_emb") as [H _]. apply H.
  unfold graph_types. rewrite !elem_of_cons. tauto.
Defined.

(** ** Early stopping *)

Lemma train_trace (n : nat) (stop : nat -> bool) : forall i s,
  (forall e, i <= e -> e < i + s -> stop e = false) ->
  (s < n -> stop (i + s) = true) ->
  s <= n ->
  train n stop i =
    (concat (replicate (Nat.min (S s) n) [Train; Evaluate "val"]%list), Ok tt).
Proof.
  induction n as [|n IH]; intros i s Hbefore Hat Hle.
  - reflexivity.
  - cbn [train]. destruct s as [|s].
    + rewrite Nat.add_0_r in Hat. rewrite Hat by lia. reflexivity.
    + rewrite (Hbefore i) by lia.
      rewrite (IH (S i) s).
      * reflexivity.
      * intros e He1 He2. apply Hbefore; lia.
      * intros Hs. replace (S i + s) with (i + S s) by lia. apply Hat. lia.
      * lia.
Qed.

(** X14. Training in the text-classification script runs the epochs up to
    and including the first one after which the stopper asks to stop, or
    all [n] epochs when it never does; every epoch it runs is followed by
    exactly one validation pass. *)
Theorem train_stops_early (n s : nat) (stop : nat -> bool) :
  (forall e, e < s -> stop e = false) ->
  (s < n -> stop s = true) ->
  s <= n ->
  train n stop 0 =
    (concat (replicate (Nat.min (S s) n) [Train; Evaluate "val"]%list), Ok tt).
Proof.
  intros Hbefore Hat Hle. apply train_trace; try assumption.
  intros e _ He. by apply Hbefore.
Qed.

Lemma train_stops_early_witness :
  train 5 (fun e => 2 <=? e)%nat 0 =
    (concat (replicate (Nat.min (S 2) 5) [Train; Evaluate "val"]%list), Ok tt).
Proof.
  apply (train_stops_early 5 2 (fun e => 2 <=? e)%nat).
  - intros e He. apply Nat.leb_gt. exact He.
  - reflexivity.
  - lia.
Defined.

End ConfigFacts.
